(** * simple-file-hosting: the download gate and the geolocation cache

    A shallow embedding of [check-download.js] (the access gate
    [validateDownloadRequest] and its helpers) and of the address cache
    of [hosting.js] ([getRealIP], [getIPInfo] and the logging
    middleware), with the properties the specification states about
    them; then of [encodeFileName] and of the earlier gate kept at
    the end of [hosting.js], with further properties of the code.
    The cache is taken twice: call by call, each call run to its
    return, and event by event, with the calls of the asynchronous
    [getIPInfo] suspended at their [await] while other requests are
    served.

    Strings are byte strings: Node decodes the request line and the
    header values as Latin-1, so every code unit the functions below
    inspect is below 256. File names, which come from the disk, are
    lists of UTF-16 code units. *)

From Stdlib Require Import ZArith NArith Lia Bool Ascii.
From stdpp Require Import gmap strings list fin_maps sorting pretty.

Local Open Scope Z_scope.

(** ** The JavaScript string operations the two files use *)

Module JsString.

(** Truthiness of a value that is a string or [undefined]: the empty
    string and [undefined] are falsy. *)
Definition nonempty (s : string) : bool :=
  match s with EmptyString => false | String _ _ => true end.

Definition truthy (o : option string) : bool :=
  match o with Some s => nonempty s | None => false end.

(** [a || b] on such values. *)
Definition or_else (a b : option string) : option string :=
  if truthy a then a else b.

(** [a || ''] *)
Definition or_empty (a : option string) : string :=
  match or_else a (Some EmptyString) with Some s => s | None => EmptyString end.

Fixpoint startsWith (s p : string) {struct p} : bool :=
  match p, s with
  | EmptyString, _ => true
  | String _ _, EmptyString => false
  | String a p', String b s' => if Ascii.eqb a b then startsWith s' p' else false
  end.

(** [s.includes(needle)] *)
Fixpoint includes (s needle : string) : bool :=
  startsWith s needle ||
  match s with
  | EmptyString => false
  | String _ s' => includes s' needle
  end.

(** [toLowerCase] on code units below 256: A-Z and the Latin-1
    capitals (0xC0-0xDE without the multiplication sign 0xD7) move
    up by 32, everything else is unchanged. *)
Definition lowerChar (c : ascii) : ascii :=
  let n := N_of_ascii c in
  if ((65 <=? n) && (n <=? 90))%N then ascii_of_N (n + 32)
  else if ((192 <=? n) && (n <=? 222) && negb (n =? 215))%N then ascii_of_N (n + 32)
  else c.

Fixpoint toLowerCase (s : string) : string :=
  match s with
  | EmptyString => EmptyString
  | String c s' => String (lowerChar c) (toLowerCase s')
  end.

(** The [Canonicalize] operation of a regular expression with the
    [i] flag and without the [u] flag: the code unit of the upper
    case form, except that a character from 128 up never folds to one
    below 128 and a character whose upper case form is longer than
    one code unit is kept. On Latin-1: a-z and 0xE0-0xFE (without the
    division sign 0xF7) move down by 32, the micro sign goes to 0x39C
    and y-diaeresis to 0x178. *)
Definition canonicalize (c : ascii) : N :=
  let n := N_of_ascii c in
  (if (97 <=? n) && (n <=? 122) then n - 32
   else if (224 <=? n) && (n <=? 254) && negb (n =? 247) then n - 32
   else if n =? 181 then 924
   else if n =? 255 then 376
   else n)%N.

Definition isDigit (c : ascii) : bool :=
  let n := N_of_ascii c in ((48 <=? n) && (n <=? 57))%N.

(** White space and line terminators among the code units below 256,
    as [trim] removes them. *)
Definition isSpace (c : ascii) : bool :=
  let n := N_of_ascii c in
  ((9 <=? n) && (n <=? 13) || (n =? 32) || (n =? 160))%N.

Fixpoint trimStart (s : string) : string :=
  match s with
  | EmptyString => EmptyString
  | String c s' => if isSpace c then trimStart s' else s
  end.

Fixpoint trimEnd (s : string) : string :=
  match s with
  | EmptyString => EmptyString
  | String c s' =>
      match trimEnd s' with
      | EmptyString => if isSpace c then EmptyString else String c EmptyString
      | t => String c t
      end
  end.

Definition trim (s : string) : string := trimEnd (trimStart s).

(** [s.split(',')[0]]: the part before the first comma. *)
Fixpoint beforeComma (s : string) : string :=
  match s with
  | EmptyString => EmptyString
  | String c s' =>
      if Ascii.eqb c ","%char then EmptyString else String c (beforeComma s')
  end.

(** [s.substr(0, n)] and [s.substr(n)] *)
Fixpoint substrTo (n : nat) (s : string) : string :=
  match n, s with
  | S n', String c s' => String c (substrTo n' s')
  | _, _ => EmptyString
  end.

Fixpoint substrFrom (n : nat) (s : string) : string :=
  match n, s with
  | S n', String _ s' => substrFrom n' s'
  | _, _ => s
  end.

(** [s.slice(from, to)] for [0 <= from <= to]. *)
Definition slice (s : string) (from to : Z) : string :=
  substrTo (Z.to_nat (to - from)) (substrFrom (Z.to_nat from) s).

Fixpoint chars (s : string) : list ascii :=
  match s with
  | EmptyString => []
  | String c s' => c :: chars s'
  end.

End JsString.

(** ** [path.extname] of Node (POSIX flavour), loop for loop *)

Module NodePath.
Import JsString.

Record scan := Scan {
  startDot : Z;
  startPart : Z;
  end_ : Z;
  matchedSlash : bool;
  preDotState : Z
}.

Definition scan0 : scan := Scan (-1) 0 (-1) true 0.

(** The loop body at index [i], reading the path from its last
    character down; [rest] are the characters before index [i], last
    one first. A separator met after a name character stops the
    loop. *)
Fixpoint extnameLoop (rest : list ascii) (i : Z) (st : scan) : scan :=
  match rest with
  | [] => st
  | c :: rest' =>
      if Ascii.eqb c "/"%char then
        if negb (matchedSlash st)
        then Scan (startDot st) (i + 1) (end_ st) (matchedSlash st) (preDotState st)
        else extnameLoop rest' (i - 1) st
      else
        let st1 :=
          if end_ st =? -1
          then Scan (startDot st) (startPart st) (i + 1) false (preDotState st)
          else st in
        let st2 :=
          if Ascii.eqb c "."%char then
            if startDot st1 =? -1
            then Scan i (startPart st1) (end_ st1) (matchedSlash st1) (preDotState st1)
            else if negb (preDotState st1 =? 1)
            then Scan (startDot st1) (startPart st1) (end_ st1) (matchedSlash st1) 1
            else st1
          else if negb (startDot st1 =? -1)
          then Scan (startDot st1) (startPart st1) (end_ st1) (matchedSlash st1) (-1)
          else st1 in
        extnameLoop rest' (i - 1) st2
  end.

Definition extname (path : string) : string :=
  let cs := chars path in
  let st := extnameLoop (rev cs) (Z.of_nat (length cs) - 1) scan0 in
  if (startDot st =? -1) || (end_ st =? -1) || (preDotState st =? 0) ||
     ((preDotState st =? 1) && (startDot st =? end_ st - 1) &&
      (startDot st =? startPart st + 1))
  then EmptyString
  else slice path (startDot st) (end_ st).

End NodePath.

(** ** The request object of Express, as the two files read it *)

Module Express.
Import JsString.

(** [req.path], [req.headers] (Node lower-cases the header names),
    [req.cookies] ([undefined] when no cookie parser ran), [req.ip]
    and [req.connection.remoteAddress]. *)
Record Request := {
  path : string;
  headers : gmap string string;
  cookies : option (gmap string string);
  ip : option string;
  remoteAddress : option string
}.

(** [req.get(name)]: the header under the lower-cased name, where
    both spellings of the referrer read either header. *)
Definition get (req : Request) (name : string) : option string :=
  let lc := toLowerCase name in
  if bool_decide (lc = "referer") || bool_decide (lc = "referrer")
  then or_else (headers req !! "referrer") (headers req !! "referer")
  else headers req !! lc.

End Express.

(** ** check-download.js *)

Module CheckDownload.
Import JsString Express.

(** [config.downloadCheck] of config.json, a file that is not part of
    the sources: the gate takes it as a parameter.
    [allowedRefDomains] is [None] when the entry is not an array. *)
Record DownloadCheck := {
  enableReferrer : bool;
  enableUserAgent : bool;
  enableBrowserFeature : bool;
  enableJsCheck : bool;
  allowedRefDomains : option (list string)
}.

Record Config := { downloadCheck : option DownloadCheck }.

(** [config.downloadCheck?.flag] *)
Definition flag (f : DownloadCheck -> bool) (config : Config) : bool :=
  match downloadCheck config with
  | Some dc => f dc
  | None => false
  end.

(** What the middleware does with the request: [next()], a 403 with
    the reason of the failing step, or the page that sets the cookie
    and reloads. *)
Inductive Decision :=
| Allow
| Deny (reason : string)
| Challenge.

Definition reasonUserAgent : string := "User-Agent 非现代浏览器或疑似下载工具".
Definition reasonBrowserFeature : string := "请求头缺少现代浏览器特性".
Definition reasonReferrer : string := "无有效来源页面 Referrer".

(** The sources of the regular expressions of [blockedUserAgents]; all
    of them are literal texts and carry the [i] flag only. *)
Definition blockedUserAgents : list string :=
  ["wget"; "curl"; "IDM"; "Downloader"; "libwww-perl"; "python";
   "node-fetch"; "axios"; "got"; "superagent"; "bot"; "crawler"; "spider"].

(** The literal text before the capture group [([0-9]+)] in each
    expression of [modernBrowsers]. *)
Definition modernBrowsers : list string :=
  ["Chrome/"; "Firefox/"; "Safari/"; "Edg/"; "OPR/"].

Definition fileExts : list string :=
  [".zip"; ".rar"; ".7z"; ".tar"; ".gz"; ".exe"; ".pdf"; ".doc"; ".docx";
   ".xls"; ".xlsx"; ".ppt"; ".pptx"; ".jpg"; ".jpeg"; ".png"; ".gif";
   ".mp4"; ".mp3"; ".apk"; ".iso"; ".txt"].

(** [fileExts.includes(ext)] *)
Definition arrayIncludes (l : list string) (x : string) : bool :=
  existsb (fun y => bool_decide (y = x)) l.

(** Matching a literal pattern with the [i] flag at the start of [s]:
    the rest of [s] after the match. *)
Fixpoint matchLiteralAt (p s : string) : option string :=
  match p with
  | EmptyString => Some s
  | String a p' =>
      match s with
      | EmptyString => None
      | String b s' =>
          if (canonicalize a =? canonicalize b)%N then matchLiteralAt p' s' else None
      end
  end.

(** [/p/i.test(s)]: a match at some position, tried left to right. *)
Fixpoint regexTest (p s : string) : bool :=
  match matchLiteralAt p s with
  | Some _ => true
  | None =>
      match s with
      | EmptyString => false
      | String _ s' => regexTest p s'
      end
  end.

(** The longest run of digits at the start of [s]: the greedy
    [[0-9]+]. *)
Fixpoint takeDigits (s : string) : string :=
  match s with
  | EmptyString => EmptyString
  | String c s' => if isDigit c then String c (takeDigits s') else EmptyString
  end.

Definition matchVersionAt (p s : string) : option string :=
  match matchLiteralAt p s with
  | Some rest => let ds := takeDigits rest in if nonempty ds then Some ds else None
  | None => None
  end.

(** [s.match(/p([0-9]+)/i)]: the capture group of the leftmost match,
    [None] for [null]. *)
Fixpoint regexMatch (p s : string) : option string :=
  match matchVersionAt p s with
  | Some ds => Some ds
  | None =>
      match s with
      | EmptyString => None
      | String _ s' => regexMatch p s'
      end
  end.

(** [parseInt] of a non-empty run of decimal digits. JavaScript
    rounds the value to a double; the rounding is monotone and keeps
    70, so the comparison with 70 below is the exact one. *)
Definition parseInt (ds : string) : N :=
  fold_left (fun acc c => (10 * acc + (N_of_ascii c - 48))%N) (chars ds) 0%N.

Definition isFileDownload (req : Request) : bool :=
  let ext := toLowerCase (NodePath.extname (path req)) in
  if arrayIncludes fileExts ext then true
  else
    let accept := or_empty (headers req !! "accept") in
    if includes accept "application/octet-stream" || includes accept "attachment" then true
    else
      let disposition := or_empty (headers req !! "content-disposition") in
      if includes disposition "attachment" then true
      else false.

Definition point (b : bool) : nat := if b then 1%nat else 0%nat.

(** The score [checkModernBrowserFeatures] adds up. *)
Definition featureScore (req : Request) : nat :=
  let h := headers req in
  (point (truthy (h !! "accept") && includes (or_empty (h !! "accept")) "text/html")
   + point (truthy (h !! "accept") && includes (or_empty (h !! "accept")) "image/webp")
   + point (truthy (h !! "accept-language"))
   + point (truthy (h !! "accept-encoding")
            && includes (or_empty (h !! "accept-encoding")) "gzip"
            && includes (or_empty (h !! "accept-encoding")) "deflate")
   + point (truthy (h !! "sec-fetch-dest"))
   + point (truthy (h !! "sec-fetch-mode"))
   + point (truthy (h !! "sec-fetch-site"))
   + point (truthy (h !! "sec-ch-ua"))
   + point (bool_decide (h !! "connection" = Some "keep-alive"))
   + point (bool_decide (h !! "upgrade-insecure-requests" = Some "1"))
   + point (truthy (h !! "cache-control")))%nat.

Definition minScore : nat := 5.

Definition checkModernBrowserFeatures (req : Request) : bool :=
  (minScore <=? featureScore req)%nat.

Definition isValidBrowser (userAgent : option string) : bool :=
  match userAgent with
  | None => false
  | Some ua =>
      if negb (nonempty ua) then false
      else if existsb (fun pattern => regexTest pattern ua) blockedUserAgents then false
      else
        existsb (fun pattern =>
                   match regexMatch pattern ua with
                   | None => false
                   | Some ds => (70 <=? parseInt ds)%N
                   end) modernBrowsers
  end.

Definition referrerOf (req : Request) : option string :=
  or_else (get req "Referrer") (get req "Referer").

(** [req.cookies && req.cookies.jsEnabled] as a truth value. *)
Definition hasJsCheck (req : Request) : bool :=
  match cookies req with
  | Some cs => truthy (cs !! "jsEnabled")
  | None => false
  end.

(** The domains of the allowlist one of which the referrer contains:
    [Array.isArray(...) && allowedRefDomains.some(...)]. *)
Definition referrerAllowed (config : Config) (referrer : string) : bool :=
  match downloadCheck config with
  | Some dc =>
      match allowedRefDomains dc with
      | Some domains => existsb (fun domain => includes referrer domain) domains
      | None => false
      end
  | None => false
  end.

(** The condition of the first [if] after the logging: the referrer
    check is on, there is a referrer and it contains an allowed
    domain. *)
Definition referrerBypass (config : Config) (req : Request) : bool :=
  let referrer := referrerOf req in
  flag enableReferrer config && truthy referrer
  && referrerAllowed config (or_empty referrer).

Definition validateDownloadRequest (config : Config) (req : Request) : Decision :=
  if negb (isFileDownload req) then Allow
  else
    let userAgent := get req "User-Agent" in
    let referrer := referrerOf req in
    if referrerBypass config req
    then Allow
    else if flag enableUserAgent config && negb (isValidBrowser userAgent)
    then Deny reasonUserAgent
    else if flag enableBrowserFeature config && negb (checkModernBrowserFeatures req)
    then Deny reasonBrowserFeature
    else if flag enableReferrer config && negb (truthy referrer)
            && negb (includes (path req) "index.html")
    then Deny reasonReferrer
    else if flag enableJsCheck config && negb (hasJsCheck req)
    then Challenge
    else Allow.

(** Two texts that differ at most in the case of their letters, as a
    literal pattern with the [i] flag and the text it matches. *)
Definition sameFolded (a b : string) : Prop :=
  canonicalize <$> chars a = canonicalize <$> chars b.

(** The script of the challenge page, run by a browser:
    [document.cookie = "jsEnabled=true; path=/"] and a reload, that
    is, the same request again with the cookie. *)
Definition setJsCookie (req : Request) : Request :=
  {| path := path req;
     headers := headers req;
     cookies := Some (<["jsEnabled" := "true"]> (default ∅ (cookies req)));
     ip := ip req;
     remoteAddress := remoteAddress req |}.

(** One request of a browser that runs scripts: the decision it
    receives and the request it sends next. *)
Definition browserStep (config : Config) (req : Request) : Decision * Request :=
  let d := validateDownloadRequest config req in
  (d, match d with Challenge => setJsCookie req | _ => req end).

(** The decisions a browser receives on [n] requests in a row. *)
Fixpoint visit (config : Config) (req : Request) (n : nat) : list Decision :=
  match n with
  | O => []
  | S n' =>
      let '(d, req') := browserStep config req in
      d :: visit config req' n'
  end.

(** The configuration with one check switched off. *)
Definition withoutCheck (off : DownloadCheck -> DownloadCheck) (config : Config) : Config :=
  {| downloadCheck := off <$> downloadCheck config |}.

Definition userAgentOff (dc : DownloadCheck) : DownloadCheck :=
  {| enableReferrer := enableReferrer dc; enableUserAgent := false;
     enableBrowserFeature := enableBrowserFeature dc;
     enableJsCheck := enableJsCheck dc;
     allowedRefDomains := allowedRefDomains dc |}.

Definition browserFeatureOff (dc : DownloadCheck) : DownloadCheck :=
  {| enableReferrer := enableReferrer dc; enableUserAgent := enableUserAgent dc;
     enableBrowserFeature := false;
     enableJsCheck := enableJsCheck dc;
     allowedRefDomains := allowedRefDomains dc |}.

(** The header names [checkModernBrowserFeatures] looks at, [accept]
    apart. *)
Definition scoredHeaders : list string :=
  ["accept-language"; "accept-encoding"; "sec-fetch-dest"; "sec-fetch-mode";
   "sec-fetch-site"; "sec-ch-ua"; "connection"; "upgrade-insecure-requests";
   "cache-control"].

End CheckDownload.

(** ** hosting.js: the address of the client and the geolocation cache *)

Module Hosting.
Import JsString Express.

Definition unknownIP : string := "未知IP".

Definition getRealIP (req : Request) : string :=
  let ip0 :=
    or_else (or_else (or_else (headers req !! "x-forwarded-for")
                              (headers req !! "x-real-ip"))
                     (ip req))
            (remoteAddress req) in
  let ip1 :=
    if truthy ip0 && includes (or_empty ip0) ","
    then Some (trim (beforeComma (or_empty ip0)))
    else ip0 in
  let ip2 :=
    if truthy ip1 && bool_decide (substrTo 7 (or_empty ip1) = "::ffff:")
    then Some (substrFrom 7 (or_empty ip1))
    else ip1 in
  or_empty (or_else ip2 (Some unknownIP)).

(** What is kept of an answer of ipinfo.io; a field the answer lacks
    is [undefined]. *)
Record IpInfo := {
  country : option string;
  city : option string;
  region : option string
}.

(** A stored value: the three fields, or [null] after a failed
    request. *)
Abbreviation GeoEntry := (option IpInfo).

Definition MAX_CACHE_SIZE : nat := 100.

(** The two module-level maps. [ipInfoCache] is only read by key and
    by size. [ipAccessTimes] is also iterated, so it keeps the order
    of a JavaScript [Map]: the order in which the keys were first
    set. *)
Record Cache := {
  ipInfoCache : gmap string GeoEntry;
  ipAccessTimes : list (string * Z)
}.

Definition emptyCache : Cache :=
  {| ipInfoCache := ∅; ipAccessTimes := [] |}.

(** [Map.prototype.set]: a key that is present keeps its place and
    takes the new value, a new key goes to the end. *)
Fixpoint mapSet (k : string) (v : Z) (m : list (string * Z)) : list (string * Z) :=
  match m with
  | [] => [(k, v)]
  | e :: m' => if bool_decide (e.1 = k) then (k, v) :: m' else e :: mapSet k v m'
  end.

(** [Map.prototype.delete] *)
Definition mapDelete (k : string) (m : list (string * Z)) : list (string * Z) :=
  filter (fun e => e.1 ≠ k) m.

(** [Map.prototype.get] *)
Fixpoint mapGet (k : string) (m : list (string * Z)) : option Z :=
  match m with
  | [] => None
  | e :: m' => if bool_decide (e.1 = k) then Some e.2 else mapGet k m'
  end.

(** [time < oldestTime], where [None] is the initial [Infinity]. *)
Definition olderThan (time : Z) (oldestTime : option Z) : bool :=
  match oldestTime with
  | None => true
  | Some t => time <? t
  end.

(** The scan [for (const [cachedIp, time] of ipAccessTimes)]: the
    pair ([oldestIp], [oldestTime]) after the loop, [None] being
    [null] and [Infinity]. *)
Definition oldestScan (m : list (string * Z)) : option string * option Z :=
  fold_left (fun acc e => if olderThan e.2 acc.2 then (Some e.1, Some e.2) else acc)
            m (None, None).

(** The block under [if (ipInfoCache.size >= MAX_CACHE_SIZE)];
    [if (oldestIp)] skips [null] and the empty string. *)
Definition evictOldest (c : Cache) : Cache :=
  if (MAX_CACHE_SIZE <=? size (ipInfoCache c))%nat then
    match (oldestScan (ipAccessTimes c)).1 with
    | Some oldestIp =>
        if nonempty oldestIp
        then {| ipInfoCache := delete oldestIp (ipInfoCache c);
                ipAccessTimes := mapDelete oldestIp (ipAccessTimes c) |}
        else c
    | None => c
    end
  else c.

(** The outcome of a call: the value returned, the maps afterwards
    and the addresses ipinfo.io was asked about. *)
Record Outcome := {
  value : GeoEntry;
  cache : Cache;
  calls : list string
}.

(** [getIPInfo(ip)], run to its return with no other call in between:
    the call as it goes when no other request is served while it
    waits for ipinfo.io. Calls that overlap are taken piece by piece
    in [Concurrent] below. [now] is what the one [Date.now()] of the
    call returns; [answer] is what the request to ipinfo.io yields if
    it is made: the fields of the body, or [None] when the request or
    the reading of its body throws. On both ways out of the [try] the
    eviction block has run before the request. *)
Definition getIPInfo (c : Cache) (ip : string) (now : Z) (answer : option IpInfo) : Outcome :=
  if bool_decide (is_Some (ipInfoCache c !! ip)) then
    {| value := default None (ipInfoCache c !! ip);
       cache := {| ipInfoCache := ipInfoCache c;
                   ipAccessTimes := mapSet ip now (ipAccessTimes c) |};
       calls := [] |}
  else
    let c1 := evictOldest c in
    {| value := answer;
       cache := {| ipInfoCache := <[ip := answer]> (ipInfoCache c1);
                   ipAccessTimes := mapSet ip now (ipAccessTimes c1) |};
       calls := [ip] |}.

(** The logging middleware, up to [req.ipInfo], for a request that is
    served with no other in between: an address that is in
    [ipInfoCache] is answered from the map, any other goes through
    [getIPInfo]. *)
Definition enrich (c : Cache) (req : Request) (now : Z) (answer : option IpInfo) : Outcome :=
  let ip := getRealIP req in
  if bool_decide (is_Some (ipInfoCache c !! ip)) then
    {| value := default None (ipInfoCache c !! ip); cache := c; calls := [] |}
  else getIPInfo c ip now answer.

(** One call of [getIPInfo]: the address, the clock and the answer
    of ipinfo.io. *)
Record Lookup := {
  lookupIp : string;
  lookupTime : Z;
  lookupAnswer : option IpInfo
}.

(** Calls made one after the other, each on the maps the one before
    left. *)
Definition runLookups (ops : list Lookup) (c : Cache) : Cache :=
  fold_left (fun c op => cache (getIPInfo c (lookupIp op) (lookupTime op) (lookupAnswer op)))
            ops c.

(** The same for requests that pass the middleware one at a time,
    each served to the end before the next arrives. *)
Record Visit := {
  visitReq : Request;
  visitTime : Z;
  visitAnswer : option IpInfo
}.

Definition runVisits (vs : list Visit) (c : Cache) : Cache :=
  fold_left (fun c v => cache (enrich c (visitReq v) (visitTime v) (visitAnswer v)))
            vs c.

(** The keys of the two maps. *)
Definition timeKeys (c : Cache) : list string := (ipAccessTimes c).*1.

(** The entry a call leaves in [ipAccessTimes]. *)
Definition lookupEntry (op : Lookup) : string * Z := (lookupIp op, lookupTime op).

(** The two maps hold the same addresses. *)
Definition consistent (c : Cache) : Prop :=
  dom (ipInfoCache c) = (list_to_set (timeKeys c) : gset string).

(** What holds of the maps between two calls: they hold the same
    addresses, each once, never the empty string, and at most
    [MAX_CACHE_SIZE] of them. *)
Record cacheInv (c : Cache) : Prop := {
  inv_consistent : consistent c;
  inv_nodup : NoDup (timeKeys c);
  inv_nonempty : "" ∉ timeKeys c;
  inv_size : (size (ipInfoCache c) ≤ MAX_CACHE_SIZE)%nat
}.

End Hosting.

(** ** The earlier version of the gate

    The text that follows the server in hosting.js is the gate as it
    was before it read config.json: [isValidBrowser] and
    [checkModernBrowserFeatures] are the ones above, and every request
    goes through the four checks. *)

Module Legacy.
Import JsString Express CheckDownload.

Definition quote : string := String (ascii_of_nat 34) EmptyString.

Definition denyUserAgent : string := "仅允许现代浏览器下载".
Definition denyBrowserFeature : string := "请使用现代浏览器访问".
Definition denyReferrer : string :=
  "请通过正常页面访问下载链接 <a href=" +:+ quote +:+ "/" +:+ quote +:+ ">返回首页</a>".

Definition validateDownloadRequest (req : Request) : Decision :=
  let userAgent := get req "User-Agent" in
  let referrer := referrerOf req in
  if negb (isValidBrowser userAgent) then Deny denyUserAgent
  else if negb (checkModernBrowserFeatures req) then Deny denyBrowserFeature
  else if negb (truthy referrer) && negb (includes (path req) "index.html")
  then Deny denyReferrer
  else if negb (hasJsCheck req) then Challenge
  else Allow.

End Legacy.

(** ** Notions the properties of the gate are stated with *)

Module GateNotions.
Import JsString Express CheckDownload.

(** What the proof cookie changes in a decision. *)
Definition afterCookie (d : Decision) : Decision :=
  match d with
  | Challenge => Allow
  | _ => d
  end.

(** The configuration with another list of allowed referrer domains. *)
Definition domainsSet (domains : list string) (dc : DownloadCheck) : DownloadCheck :=
  {| enableReferrer := enableReferrer dc; enableUserAgent := enableUserAgent dc;
     enableBrowserFeature := enableBrowserFeature dc;
     enableJsCheck := enableJsCheck dc;
     allowedRefDomains := Some domains |}.

Definition withDomains (domains : list string) (config : Config) : Config :=
  withoutCheck (domainsSet domains) config.

(** The domains the allowlist holds; none when there is no list. *)
Definition allowedDomains (config : Config) : list string :=
  match downloadCheck config ≫= allowedRefDomains with
  | Some domains => domains
  | None => []
  end.

(** The request with another path, and with other headers. *)
Definition withPath (p : string) (req : Request) : Request :=
  {| path := p; headers := headers req; cookies := cookies req;
     ip := ip req; remoteAddress := remoteAddress req |}.

Definition withHeaders (h : gmap string string) (req : Request) : Request :=
  {| path := path req; headers := h; cookies := cookies req;
     ip := ip req; remoteAddress := remoteAddress req |}.

(** Every check that is switched on is passed by the request, the
    proof cookie apart. *)
Definition passesHardChecks (config : Config) (req : Request) : Prop :=
  (flag enableUserAgent config = true → isValidBrowser (get req "User-Agent") = true) ∧
  (flag enableBrowserFeature config = true → checkModernBrowserFeatures req = true) ∧
  (flag enableReferrer config = true →
   truthy (referrerOf req) = true ∨ includes (path req) "index.html" = true).

(** The text [s] contains the word [w], whatever the case of the
    letters of either. *)
Definition mentions (s w : string) : bool :=
  includes (toLowerCase s) (toLowerCase w).

(** The numbers written after the token [p] in the text [s], from left
    to right: for each place where [s] reads [p], in whatever case of
    letters, and a digit follows, the digits up to the first character
    that is none. *)
Fixpoint versionsAfter (p s : string) : list string :=
  (if startsWith (toLowerCase s) (toLowerCase p)
      && nonempty (takeDigits (substrFrom (String.length p) s))
   then [takeDigits (substrFrom (String.length p) s)]
   else [])
  ++ match s with
     | EmptyString => []
     | String _ s' => versionsAfter p s'
     end.

(** The lower case form of a character told from its canonical
    form. *)
Definition lowerOfCanonical (n : N) : ascii :=
  if (n =? 924)%N then ascii_of_N 181
  else if (n =? 376)%N then ascii_of_N 255
  else lowerChar (ascii_of_N n).

End GateNotions.

(** ** hosting.js: the file name in the Content-Disposition header *)

Module FileName.
Import JsString.

(** A file name is a JavaScript string of any characters: it is taken
    as the list of its UTF-16 code units, numbers below 65536. The
    results are ASCII texts. *)

Definition isAlnum (u : N) : bool :=
  ((48 <=? u) && (u <=? 57) || (65 <=? u) && (u <=? 90) || (97 <=? u) && (u <=? 122))%N.

(** The marks [encodeURIComponent] leaves alone besides letters and
    digits: - _ . ! ~ * ' ( ) *)
Definition uriMark : list N := [45; 95; 46; 33; 126; 42; 39; 40; 41]%N.

Definition isUnreserved (u : N) : bool := isAlnum u || bool_decide (u ∈ uriMark).

(** An octet as [%XX], the digits in upper case. *)
Definition hexDigit (n : N) : ascii :=
  if (n <? 10)%N then ascii_of_N (48 + n) else ascii_of_N (55 + n).

Definition pct (b : N) : string :=
  String "%" (String (hexDigit (b / 16)) (String (hexDigit (b mod 16)) EmptyString)).

Fixpoint pctAll (bs : list N) : string :=
  match bs with
  | [] => EmptyString
  | b :: bs' => pct b +:+ pctAll bs'
  end.

(** The UTF-8 octets of a code point. *)
Definition utf8 (cp : N) : list N :=
  (if cp <? 128 then [cp]
   else if cp <? 2048 then [192 + cp / 64; 128 + cp mod 64]
   else if cp <? 65536 then [224 + cp / 4096; 128 + (cp / 64) mod 64; 128 + cp mod 64]
   else [240 + cp / 262144; 128 + (cp / 4096) mod 64; 128 + (cp / 64) mod 64;
         128 + cp mod 64])%N.

(** Surrogates, and the code point of a pair. *)
Definition isHigh (u : N) : bool := ((55296 <=? u) && (u <=? 56319))%N.
Definition isLow (u : N) : bool := ((56320 <=? u) && (u <=? 57343))%N.

Definition codePoint (hi lo : N) : N := ((hi - 55296) * 1024 + (lo - 56320) + 65536)%N.

(** [encodeURIComponent]: an unreserved code unit stays, any other
    code point becomes the [%XX] of its UTF-8 octets, and a surrogate
    without its partner throws ([None]). *)
Fixpoint encodeURIComponent (s : list N) : option string :=
  match s with
  | [] => Some EmptyString
  | u :: rest =>
      if isUnreserved u then String (ascii_of_N u) <$> encodeURIComponent rest
      else if isHigh u then
        match rest with
        | lo :: rest' =>
            if isLow lo
            then String.append (pctAll (utf8 (codePoint u lo))) <$> encodeURIComponent rest'
            else None
        | [] => None
        end
      else if isLow u then None
      else String.append (pctAll (utf8 u)) <$> encodeURIComponent rest
  end.

(** A replacement of single characters, as a [replace] with a one
    character class and the [g] flag does it. *)
Fixpoint flatMap (f : ascii → string) (s : string) : string :=
  match s with
  | EmptyString => EmptyString
  | String c s' => f c +:+ flatMap f s'
  end.

(** [escape] on code units below 256: letters, digits and
    @ * _ + - . / stay, the others become [%XX]. *)
Definition escapeKeeps (c : ascii) : bool :=
  isAlnum (N_of_ascii c) || bool_decide (N_of_ascii c ∈ [64; 42; 95; 43; 45; 46; 47]%N).

Definition escape (s : string) : string :=
  flatMap (λ c, if escapeKeeps c then String c EmptyString else pct (N_of_ascii c)) s.

(** [.replace(/['()]/g, escape)] *)
Definition replaceQuotes (s : string) : string :=
  flatMap (λ c, if bool_decide (N_of_ascii c ∈ [39; 40; 41]%N)
                then escape (String c EmptyString) else String c EmptyString) s.

(** [.replace(/\*/g, '%2A')] *)
Definition replaceStars (s : string) : string :=
  flatMap (λ c, if Ascii.eqb c "*" then "%2A" else String c EmptyString) s.

(** [.replace(/pat/g, rep)] for a literal [pat]: the matches from left
    to right, none overlapping another; [skip] counts the characters
    of a match still to pass over. *)
Fixpoint replaceAllFrom (skip : nat) (pat rep s : string) : string :=
  match s with
  | EmptyString => EmptyString
  | String c s' =>
      match skip with
      | S k => replaceAllFrom k pat rep s'
      | O =>
          if startsWith s pat
          then rep +:+ replaceAllFrom (String.length pat - 1) pat rep s'
          else String c (replaceAllFrom 0 pat rep s')
      end
  end.

Definition replaceAll (pat rep s : string) : string := replaceAllFrom 0 pat rep s.

(** The three [replace] calls, in their order. *)
Definition finish (s : string) : string :=
  replaceAll "%20" " " (replaceStars (replaceQuotes s)).

(** [encodeFileName(fileName)]; [None] when [encodeURIComponent]
    throws. *)
Definition encodeFileName (fileName : list N) : option string :=
  finish <$> encodeURIComponent fileName.

(** The string whose code units are [us], all below 256. *)
Fixpoint ofUnits (us : list N) : string :=
  match us with
  | [] => EmptyString
  | u :: us' => String (ascii_of_N u) (ofUnits us')
  end.

(** Letters, digits and - _ . ! ~ : what the four steps leave as it is. *)
Definition isPlain (u : N) : bool :=
  isAlnum u || bool_decide (u ∈ [45; 95; 46; 33; 126]%N).

(** The characters a result is made of: the plain ones, the percent
    sign and the space. *)
Definition isHeaderSafe (c : ascii) : bool :=
  isPlain (N_of_ascii c) || Ascii.eqb c "%" || Ascii.eqb c " ".

(** The four steps in one pass over the name. *)
Fixpoint encodeDirect (s : list N) : option string :=
  match s with
  | [] => Some EmptyString
  | u :: rest =>
      if isPlain u then String (ascii_of_N u) <$> encodeDirect rest
      else if (u =? 32)%N then String " " <$> encodeDirect rest
      else if isHigh u then
        match rest with
        | lo :: rest' =>
            if isLow lo
            then String.append (pctAll (utf8 (codePoint u lo))) <$> encodeDirect rest'
            else None
        | [] => None
        end
      else if isLow u then None
      else String.append (pctAll (utf8 u)) <$> encodeDirect rest
  end.

(** The UTF-8 octets of a string of UTF-16 code units, [None] when a
    surrogate has no partner. *)
Fixpoint utf8Bytes (s : list N) : option (list N) :=
  match s with
  | [] => Some []
  | u :: rest =>
      if isHigh u then
        match rest with
        | lo :: rest' =>
            if isLow lo then app (utf8 (codePoint u lo)) <$> utf8Bytes rest' else None
        | [] => None
        end
      else if isLow u then None
      else app (utf8 u) <$> utf8Bytes rest
  end.

Definition hexValue (c : ascii) : N :=
  let n := N_of_ascii c in
  (if (48 <=? n) && (n <=? 57) then n - 48
   else if (65 <=? n) && (n <=? 70) then n - 55
   else if (97 <=? n) && (n <=? 102) then n - 87
   else 0)%N.

(** Percent-decoding: the octet of each [%XY], the code of any other
    character. *)
Fixpoint pctDecode (s : string) : list N :=
  match s with
  | EmptyString => []
  | String c s' =>
      if Ascii.eqb c "%" then
        match s' with
        | String x (String y s'') => (16 * hexValue x + hexValue y)%N :: pctDecode s''
        | _ => N_of_ascii c :: pctDecode s'
        end
      else N_of_ascii c :: pctDecode s'
  end.

End FileName.

(** ** Notions the properties of the cache are stated with *)

Module HostingNotions.
Import JsString Express Hosting.

(** The address a request is cached under. *)
Definition visitor (v : Visit) : string := getRealIP (visitReq v).

(** A run of requests through the middleware, with the list of the
    addresses ipinfo.io was asked about on the way. *)
Definition visitsLog (vs : list Visit) (st : Cache * list string) : Cache * list string :=
  fold_left (λ st v,
               let o := enrich st.1 (visitReq v) (visitTime v) (visitAnswer v) in
               (cache o, st.2 ++ calls o))
            vs st.

Definition commaFree (s : string) : Prop := includes s "," = false.

End HostingNotions.

(** ** hosting.js: requests that overlap

    [getIPInfo] is an [async] function, and the middleware that calls
    it is one too. A call runs up to [await axios.get] in one piece:
    the test for the address and the eviction block. There it is
    suspended, other requests are served, and when ipinfo.io has
    answered or failed, the rest runs in one piece: the two [set]
    calls. The server is taken here event by event, an event being a
    request that reaches the middleware or a request to ipinfo.io
    that settles. [Hosting.getIPInfo] and [Hosting.enrich] above are
    the two pieces of one call with nothing in between. *)

Module Concurrent.
Import JsString Express Hosting HostingNotions.

(** [getIPInfo(ip)] from the call to the first [await]. On a hit the
    call ends there: the time of the address is set and the stored
    value returned ([Some]). On a miss the eviction block runs and
    the call is suspended on the request to ipinfo.io ([None]). *)
Definition getIPInfoBegin (c : Cache) (ip : string) (now : Z) : option GeoEntry * Cache :=
  if bool_decide (is_Some (ipInfoCache c !! ip)) then
    (Some (default None (ipInfoCache c !! ip)),
     {| ipInfoCache := ipInfoCache c;
        ipAccessTimes := mapSet ip now (ipAccessTimes c) |})
  else (None, evictOldest c).

(** [getIPInfo(ip)] from the moment the request to ipinfo.io settles,
    on the maps as they are by then: the two [set] calls after the
    [await], or those of the [catch] block when [answer] is [None]. *)
Definition getIPInfoEnd (c : Cache) (ip : string) (now : Z) (answer : option IpInfo) : Cache :=
  {| ipInfoCache := <[ip := answer]> (ipInfoCache c);
     ipAccessTimes := mapSet ip now (ipAccessTimes c) |}.

(** The server between two events: the two maps, the addresses of the
    calls of [getIPInfo] that are suspended, and the addresses
    ipinfo.io was asked about so far. *)
Record Server := {
  maps : Cache;
  inFlight : list string;
  asked : list string
}.

Definition idle : Server := {| maps := emptyCache; inFlight := []; asked := [] |}.

(** A request reaches the middleware, or the request to ipinfo.io of
    a suspended call for [ip] settles with [answer]; [now] is the
    clock at the event. *)
Inductive Event :=
| Arrive (req : Request) (now : Z)
| Settle (ip : string) (now : Z) (answer : option IpInfo).

Definition eventTime (e : Event) : Z :=
  match e with
  | Arrive _ now => now
  | Settle _ now _ => now
  end.

(** The middleware up to its [await]: an address that is in
    [ipInfoCache] is answered from the map; for any other
    [getIPInfo] is called and runs to its own [await]. *)
Definition arrive (s : Server) (req : Request) (now : Z) : Server :=
  let ip := getRealIP req in
  if bool_decide (is_Some (ipInfoCache (maps s) !! ip)) then s
  else
    match getIPInfoBegin (maps s) ip now with
    | (Some _, c) => {| maps := c; inFlight := inFlight s; asked := asked s |}
    | (None, c) => {| maps := c; inFlight := inFlight s ++ [ip]; asked := asked s ++ [ip] |}
    end.

Fixpoint removeFirst (ip : string) (l : list string) : list string :=
  match l with
  | [] => []
  | a :: l' => if bool_decide (a = ip) then l' else a :: removeFirst ip l'
  end.

(** A suspended call for [ip] goes on. When no call for [ip] is
    suspended there is no such event, and the step leaves the server
    as it is. *)
Definition settle (s : Server) (ip : string) (now : Z) (answer : option IpInfo) : Server :=
  if bool_decide (ip ∈ inFlight s) then
    {| maps := getIPInfoEnd (maps s) ip now answer;
       inFlight := removeFirst ip (inFlight s);
       asked := asked s |}
  else s.

Definition step (s : Server) (e : Event) : Server :=
  match e with
  | Arrive req now => arrive s req now
  | Settle ip now answer => settle s ip now answer
  end.

Definition run (evs : list Event) (s : Server) : Server := fold_left step evs s.

(** Requests served one at a time: each call of [getIPInfo] settles
    before the next request arrives. *)
Definition serial (vs : list Visit) : list Event :=
  vs ≫= λ v, [Arrive (visitReq v) (visitTime v);
               Settle (visitor v) (visitTime v) (visitAnswer v)].

(** The addresses of the requests of a run. *)
Definition arrivals (evs : list Event) : list string :=
  omap (λ e, match e with
             | Arrive req _ => Some (getRealIP req)
             | Settle _ _ _ => None
             end) evs.

(** No request arrives from an address for which a call of
    [getIPInfo] is suspended. *)
Fixpoint quiet (evs : list Event) (s : Server) : bool :=
  match evs with
  | [] => true
  | e :: evs' =>
      match e with
      | Arrive req _ => bool_decide (getRealIP req ∉ inFlight s)
      | Settle _ _ _ => true
      end && quiet evs' (step s e)
  end.

(** At no moment of the run are more than [k] calls suspended. *)
Fixpoint inFlightAtMost (k : nat) (evs : list Event) (s : Server) : bool :=
  bool_decide (length (inFlight s) ≤ k)%nat &&
  match evs with
  | [] => true
  | e :: evs' => inFlightAtMost k evs' (step s e)
  end.

(** The condition of a quiet run on one event. *)
Definition calm (s : Server) (e : Event) : Prop :=
  match e with
  | Arrive req _ => getRealIP req ∉ inFlight s
  | Settle _ _ _ => True
  end.

(** What holds of the server between two events, whatever the events
    were: the two maps hold the same addresses, each once, and neither
    the maps nor the suspended calls know the empty string. *)
Record serverInv (s : Server) : Prop := {
  sv_consistent : consistent (maps s);
  sv_nodup : NoDup (timeKeys (maps s));
  sv_nonempty : "" ∉ timeKeys (maps s);
  sv_flight : "" ∉ inFlight s
}.

(** What holds besides in a quiet run: no address has two suspended
    calls, and an address with a suspended call is not in the maps. *)
Record quietInv (s : Server) : Prop := {
  q_inv : serverInv s;
  q_nodup : NoDup (inFlight s);
  q_absent : ∀ a, a ∈ inFlight s → ipInfoCache (maps s) !! a = None
}.

End Concurrent.

(** ** Concrete configurations and requests *)

Module Samples.
Import JsString Express CheckDownload.

(** Every check on, one allowed referrer domain. *)
Definition strictConfig : Config :=
  {| downloadCheck := Some {| enableReferrer := true; enableUserAgent := true;
                              enableBrowserFeature := true; enableJsCheck := true;
                              allowedRefDomains := Some ["files.example.org"] |} |}.

Definition request (p : string) (hs : list (string * string))
    (cs : list (string * string)) : Request :=
  {| path := p; headers := list_to_map hs; cookies := Some (list_to_map cs);
     ip := Some "::ffff:192.0.2.7"; remoteAddress := None |}.

Definition chromeUA : string :=
  "Mozilla/5.0 (X11; Linux x86_64) AppleWebKit/537.36 (KHTML, like Gecko) Chrome/120.0.0.0 Safari/537.36".

(** A page request by a command-line client. *)
Definition pageByCurl : Request :=
  request "/docs/readme.html" [("user-agent", "curl/8.4.0"); ("accept", "*/*")] [].

(** An archive asked for by a command-line client that names an
    allowed page as its referrer. *)
Definition zipByCurlFromAllowedPage : Request :=
  request "/pub/data.zip"
          [("user-agent", "curl/8.4.0"); ("accept", "*/*");
           ("referer", "https://files.example.org/list")] [].

(** Archives asked for with no user-agent, by a command-line client and
    by a browser; none names a referrer. *)
Definition zipNoUA : Request := request "/pub/data.zip" [("accept", "*/*")] [].

Definition zipByCurl : Request :=
  request "/pub/data.zip" [("user-agent", "curl/8.4.0"); ("accept", "*/*")] [].

Definition zipByChrome : Request :=
  request "/pub/data.zip" [("user-agent", chromeUA); ("accept", "*/*")] [].

(** An archive asked for by a browser, from a page of another site:
    the headers a browser sends, no cookie yet. *)
Definition browserHeaders : list (string * string) :=
  [("user-agent", chromeUA);
   ("accept", "text/html,application/xhtml+xml,image/webp,*/*;q=0.8");
   ("accept-language", "en-GB,en;q=0.9");
   ("accept-encoding", "gzip, deflate, br");
   ("cache-control", "no-cache");
   ("referer", "https://mirror.example.net/files/")].

Definition zipByBrowser : Request := request "/pub/data.zip" browserHeaders [].

(** The same request without the referrer. *)
Definition zipByBrowserNoReferrer : Request :=
  request "/pub/data.zip"
          [("user-agent", chromeUA);
           ("accept", "text/html,application/xhtml+xml,image/webp,*/*;q=0.8");
           ("accept-language", "en-GB,en;q=0.9");
           ("accept-encoding", "gzip, deflate, br");
           ("cache-control", "no-cache")] [].

(** Every check off, and no [downloadCheck] at all. *)
Definition laxConfig : Config :=
  {| downloadCheck := Some {| enableReferrer := false; enableUserAgent := false;
                              enableBrowserFeature := false; enableJsCheck := false;
                              allowedRefDomains := Some ["files.example.org"] |} |}.

Definition noConfig : Config := {| downloadCheck := None |}.

(** Addresses, calls of [getIPInfo] and requests through the
    middleware, numbered; the call and the request number [i] happen at
    time [i], and ipinfo.io fails on the odd ones. *)
Definition address (i : nat) : string := "198.51.100." +:+ pretty i.

Definition someInfo : Hosting.IpInfo :=
  {| Hosting.country := Some "NL"; Hosting.city := Some "Amsterdam";
     Hosting.region := Some "North Holland" |}.

Definition answerOf (i : nat) : option Hosting.IpInfo :=
  if Nat.even i then Some someInfo else None.

Definition lookupNo (i : nat) : Hosting.Lookup :=
  {| Hosting.lookupIp := address i; Hosting.lookupTime := Z.of_nat i;
     Hosting.lookupAnswer := answerOf i |}.

Definition lookups (n : nat) : list Hosting.Lookup := lookupNo <$> seq 1 n.

Definition requestFrom (i : nat) : Request :=
  {| path := "/"; headers := ∅; cookies := None;
     ip := Some ("::ffff:" +:+ address i); remoteAddress := None |}.

Definition visitAt (i : nat) (t : Z) : Hosting.Visit :=
  {| Hosting.visitReq := requestFrom i; Hosting.visitTime := t;
     Hosting.visitAnswer := answerOf i |}.

Definition visits (n : nat) : list Hosting.Visit :=
  (λ i, visitAt i (Z.of_nat i)) <$> seq 1 n.

(** The maps after three calls. *)
Definition smallCache : Hosting.Cache := Hosting.runLookups (lookups 3) Hosting.emptyCache.

(** The maps after a hundred visitors, each seen once. *)
Definition fullCache : Hosting.Cache := Hosting.runVisits (visits 100) Hosting.emptyCache.

End Samples.

(** ** More configurations, requests and file names *)

Module MoreSamples.
Import JsString Express CheckDownload.

(** A request that carries every header the feature score looks at. *)
Definition zipWithAllHeaders : Request :=
  Samples.request "/pub/data.zip"
    [("user-agent", Samples.chromeUA);
     ("accept", "text/html,application/xhtml+xml,image/webp,*/*;q=0.8");
     ("accept-language", "en-GB,en;q=0.9");
     ("accept-encoding", "gzip, deflate, br");
     ("sec-fetch-dest", "document");
     ("sec-fetch-mode", "navigate");
     ("sec-fetch-site", "none");
     ("sec-ch-ua", "Chromium;v=120");
     ("connection", "keep-alive");
     ("upgrade-insecure-requests", "1");
     ("cache-control", "max-age=0")] [].

(** An archive asked for by a command-line client that names a page of
    another site as its referrer. *)
Definition zipByCurlFromMirror : Request :=
  Samples.request "/pub/data.zip"
    [("user-agent", "curl/8.4.0"); ("accept", "*/*");
     ("referer", "https://mirror.example.net/files/")] [].

Definition moreDomains : list string := ["files.example.org"; "mirror.example.net"].

(** Every check on, and an allowlist with an empty entry. *)
Definition configWithEmptyDomain : Config :=
  {| downloadCheck := Some {| enableReferrer := true; enableUserAgent := true;
                              enableBrowserFeature := true; enableJsCheck := true;
                              allowedRefDomains := Some ["files.example.org"; ""] |} |}.

(** The code units of a text of Latin-1 characters. *)
Definition unitsOf (s : string) : list N := N_of_ascii <$> chars s.

Definition plainName : list N := unitsOf "holiday photos 2024_v1.tar.gz".

Definition markedName : list N := unitsOf "report (final)*'s copy; 100%.pdf".

(** Two Chinese characters, a space, an emoji (a surrogate pair) and
    an extension. *)
Definition wideName : list N := [25991; 20214; 32; 55357; 56832; 46; 122; 105; 112]%N.

(** A client that writes its name in capitals and adds a browser
    token. *)
Definition zipByUpperCaseCurl : Request :=
  Samples.request "/pub/data.zip"
    [("user-agent", "CURL/8.4.0 Chrome/120.0"); ("accept", "*/*")] [].

(** A user-agent with two Chrome tokens, the old version first. *)
Definition twoChromesUA : string := "Mozilla/5.0 Chrome/50.0 Chrome/120.0".

Definition zipByTwoChromes : Request :=
  Samples.request "/pub/data.zip" [("user-agent", twoChromesUA); ("accept", "*/*")] [].

(** Requests from [n] visitors that all arrive before ipinfo.io has
    answered for any of them, and then the [n] answers. *)
Definition burst (n : nat) : list Concurrent.Event :=
  ((λ i, Concurrent.Arrive (Samples.requestFrom i) (Z.of_nat i)) <$> seq 1 n)
  ++ ((λ i, Concurrent.Settle (Samples.address i) (Z.of_nat (n + i)) (Samples.answerOf i))
        <$> seq 1 n).

(** Three visitors whose lookups overlap; the first comes back once
    its answer is stored. *)
Definition overlappingVisits : list Concurrent.Event :=
  [Concurrent.Arrive (Samples.requestFrom 1) 1;
   Concurrent.Arrive (Samples.requestFrom 2) 2;
   Concurrent.Settle (Samples.address 2) 3 (Samples.answerOf 2);
   Concurrent.Arrive (Samples.requestFrom 3) 4;
   Concurrent.Settle (Samples.address 1) 5 (Samples.answerOf 1);
   Concurrent.Arrive (Samples.requestFrom 1) 6;
   Concurrent.Settle (Samples.address 3) 7 (Samples.answerOf 3)].

(** Two requests from one new address, the second before the lookup
    of the first has settled. *)
Definition twinVisits : list Concurrent.Event :=
  [Concurrent.Arrive (Samples.requestFrom 1) 1;
   Concurrent.Arrive (Samples.requestFrom 1) 2;
   Concurrent.Settle (Samples.address 1) 3 (Some Samples.someInfo);
   Concurrent.Settle (Samples.address 1) 4 None].

End MoreSamples.

(** * Properties of the gate *)

Module GateSpec.
Import JsString Express CheckDownload.

Lemma arrayIncludes_elem (l : list string) (x : string) :
  arrayIncludes l x = true ↔ x ∈ l.
Proof.
  unfold arrayIncludes. rewrite existsb_exists. split.
  - intros (y & Hy%list_elem_of_In & Heq%bool_decide_eq_true). by subst.
  - intros Hx. exists x. split; [by apply list_elem_of_In | by apply bool_decide_eq_true].
Qed.

Lemma arrayIncludes_not_elem (l : list string) (x : string) :
  x ∉ l → arrayIncludes l x = false.
Proof.
  intros Hx. destruct (arrayIncludes l x) eqn:E; [|done].
  by apply arrayIncludes_elem in E.
Qed.

Lemma existsb_elem {A} (f : A → bool) (l : list A) (x : A) :
  x ∈ l → f x = true → existsb f l = true.
Proof. intros Hx Hf. apply existsb_exists. exists x. by rewrite <- list_elem_of_In. Qed.

Lemma existsb_none {A} (f : A → bool) (l : list A) :
  (∀ x, x ∈ l → f x = false) → existsb f l = false.
Proof.
  intros H. destruct (existsb f l) eqn:E; [|done].
  apply existsb_exists in E as (x & Hx%list_elem_of_In & Hfx).
  by rewrite (H x Hx) in Hfx.
Qed.

Lemma truthy_Some (s : string) : s ≠ "" → truthy (Some s) = true.
Proof. by destruct s. Qed.

Lemma or_empty_Some (s : string) : or_empty (Some s) = s.
Proof. by destruct s. Qed.

(** [includes] is the substring test. *)
Lemma startsWith_prefix (s p : string) :
  startsWith s p = true ↔ ∃ post, s = p +:+ post.
Proof.
  revert s. induction p as [|a p IH]; intros s; simpl.
  - split; [by exists s | done].
  - destruct s as [|b s]; [split; [done | by intros [? ?]]|].
    destruct (Ascii.eqb_spec a b) as [->|Hne].
    + rewrite IH. split; intros [post H]; exists post; [by rewrite H | by injection H].
    + split; [done | intros [post H]; by injection H].
Qed.

Lemma includes_substring (s needle : string) :
  includes s needle = true ↔ ∃ pre post, s = pre +:+ needle +:+ post.
Proof.
  split.
  - induction s as [|c s IH]; simpl.
    + rewrite orb_false_r. intros [post H]%startsWith_prefix. by exists "", post.
    + intros [[post H]%startsWith_prefix|H]%orb_true_iff.
      * by exists "", post.
      * destruct (IH H) as (pre & post & ->). by exists (String c pre), post.
  - intros (pre & post & ->). induction pre as [|c pre IH]; simpl.
    + assert (startsWith (needle +:+ post) needle = true) as H
        by (apply startsWith_prefix; by exists post).
      destruct (needle +:+ post); simpl; by rewrite H.
    + by rewrite IH, orb_true_r.
Qed.

(** A request that is no download is let through, whatever the
    configuration. *)
Lemma not_download_allow (config : Config) (req : Request) :
  isFileDownload req = false → validateDownloadRequest config req = Allow.
Proof. intros H. unfold validateDownloadRequest. by rewrite H. Qed.

(** The gate on a download that does not take the bypass, step by
    step. *)
Lemma validate_steps (config : Config) (req : Request) :
  isFileDownload req = true →
  referrerBypass config req = false →
  validateDownloadRequest config req =
    if flag enableUserAgent config && negb (isValidBrowser (get req "User-Agent"))
    then Deny reasonUserAgent
    else if flag enableBrowserFeature config && negb (checkModernBrowserFeatures req)
    then Deny reasonBrowserFeature
    else if flag enableReferrer config && negb (truthy (referrerOf req))
            && negb (includes (path req) "index.html")
    then Deny reasonReferrer
    else if flag enableJsCheck config && negb (hasJsCheck req)
    then Challenge
    else Allow.
Proof. intros Hd Hb. unfold validateDownloadRequest. by rewrite Hd, Hb. Qed.

Lemma flag_Some (f : DownloadCheck → bool) (config : Config) (dc : DownloadCheck) :
  downloadCheck config = Some dc → flag f config = f dc.
Proof. intros H. unfold flag. by rewrite H. Qed.

Lemma reasons_distinct :
  reasonUserAgent ≠ reasonBrowserFeature ∧
  reasonUserAgent ≠ reasonReferrer ∧
  reasonBrowserFeature ≠ reasonReferrer.
Proof. by repeat split. Qed.

(** C1. A request whose path extension, lower-cased as the gate
    compares it, is not one of the download extensions, whose Accept
    header contains neither 'application/octet-stream' nor
    'attachment' and whose Content-Disposition header does not
    contain 'attachment' is let through at once, whatever the
    user-agent, the other headers, the cookies and the configuration
    are. *)
Theorem C1_not_a_download_is_allowed (config : Config) (req : Request) :
  toLowerCase (NodePath.extname (path req)) ∉ fileExts →
  includes (or_empty (headers req !! "accept")) "application/octet-stream" = false →
  includes (or_empty (headers req !! "accept")) "attachment" = false →
  includes (or_empty (headers req !! "content-disposition")) "attachment" = false →
  validateDownloadRequest config req = Allow.
Proof.
  intros Hext Ha1 Ha2 Hd. apply not_download_allow.
  unfold isFileDownload.
  by rewrite (arrayIncludes_not_elem _ _ Hext), Ha1, Ha2, Hd.
Qed.

(** The referrer the gate works with is the [referrer] header, or
    the [referer] header when that one is missing or empty. *)
Lemma referrerOf_headers (req : Request) :
  referrerOf req = or_else (headers req !! "referrer") (headers req !! "referer").
Proof.
  unfold referrerOf.
  assert (get req "Referrer" = or_else (headers req !! "referrer") (headers req !! "referer"))
    as -> by reflexivity.
  assert (get req "Referer" = or_else (headers req !! "referrer") (headers req !! "referer"))
    as -> by reflexivity.
  unfold or_else at 1. by destruct (truthy _).
Qed.

(** C2. With enableReferrer on, a request whose referrer contains one
    of the configured allowedRefDomains is let through at once; the
    user-agent and the headers are not looked at. *)
Theorem C2_allowed_referrer_bypasses (config : Config) (req : Request)
    (dc : DownloadCheck) (domains : list string) (referrer domain : string) :
  downloadCheck config = Some dc →
  enableReferrer dc = true →
  allowedRefDomains dc = Some domains →
  referrerOf req = Some referrer →
  referrer ≠ "" →
  domain ∈ domains →
  includes referrer domain = true →
  validateDownloadRequest config req = Allow.
Proof.
  intros Hdc Hen Hdom Hr Hne Hin Hinc.
  unfold validateDownloadRequest.
  destruct (isFileDownload req); [|done]. simpl.
  assert (referrerBypass config req = true) as ->; [|done].
  unfold referrerBypass, referrerAllowed.
  rewrite (flag_Some _ _ _ Hdc), Hen, Hr, Hdc, Hdom, (truthy_Some _ Hne), or_empty_Some.
  simpl. by apply (existsb_elem _ _ domain).
Qed.

(** *** The file extension *)

Example extname_upper_case : NodePath.extname "/files/a.b/Archive.ZIP" = ".ZIP".
Proof. reflexivity. Qed.

Example extname_dot_file : NodePath.extname "/files/.bashrc" = "".
Proof. reflexivity. Qed.

Example extname_trailing_slashes : NodePath.extname "/files/a.txt//" = ".txt".
Proof. reflexivity. Qed.

Example extname_dot_in_directory : NodePath.extname "/files.d/readme" = "".
Proof. reflexivity. Qed.

Example isFileDownload_upper_case :
  isFileDownload (Samples.request "/pub/Archive.ZIP" [] []) = true.
Proof. vm_compute. reflexivity. Qed.

(** *** The user-agent step *)

(** The expressions match whatever the case of the letters, and the
    version an expression captures is the run of digits after its
    leftmost match. *)
Example regexTest_any_case : regexTest "curl" "libCURL/7.1" = true.
Proof. reflexivity. Qed.

Example regexMatch_chrome : regexMatch "Chrome/" Samples.chromeUA = Some "120".
Proof. vm_compute. reflexivity. Qed.

Example regexMatch_leftmost : regexMatch "Chrome/" "Chrome/50 Chrome/80" = Some "50".
Proof. vm_compute. reflexivity. Qed.

Example regexMatch_needs_digits : regexMatch "Chrome/" "Chrome/x Chrome/80" = Some "80".
Proof. vm_compute. reflexivity. Qed.

Lemma get_user_agent (req : Request) :
  get req "User-Agent" = headers req !! "user-agent".
Proof. reflexivity. Qed.

Lemma matchLiteralAt_self (p rest : string) :
  matchLiteralAt p (p +:+ rest) = Some rest.
Proof.
  induction p as [|a p IH]; simpl; [done|].
  by rewrite N.eqb_refl.
Qed.

Lemma matchLiteralAt_folded (p s rest : string) :
  matchLiteralAt p s = Some rest ↔ ∃ mid, s = mid +:+ rest ∧ sameFolded p mid.
Proof.
  unfold sameFolded. revert s. induction p as [|a p IH]; intros s; simpl.
  - split.
    + intros [= ->]. by exists "".
    + intros ([|b mid] & -> & H); [done | by csimpl in H].
  - destruct s as [|b s].
    + split; [done|]. intros ([|c mid] & Hs & H); [by csimpl in H | done].
    + destruct (N.eqb_spec (canonicalize a) (canonicalize b)) as [Heq|Hne].
      * rewrite IH. split.
        -- intros (mid & -> & H). exists (String b mid). split; [done|].
           csimpl. by rewrite Heq, H.
        -- intros ([|c mid] & Hs & H); [by csimpl in H|].
           injection Hs as -> ->. csimpl in H. injection H as _ H. by exists mid.
      * split; [done|]. intros ([|c mid] & Hs & H); [by csimpl in H|].
        injection Hs as -> ->. csimpl in H. by injection H as ? _.
Qed.

(** [regexTest] holds exactly of the texts that contain the pattern
    up to the case of the letters. *)
Lemma regexTest_folded (p s : string) :
  regexTest p s = true ↔ ∃ pre mid post, s = pre +:+ mid +:+ post ∧ sameFolded p mid.
Proof.
  split.
  - induction s as [|c s IH]; simpl.
    + destruct (matchLiteralAt p "") as [rest|] eqn:E; [|done]. intros _.
      apply matchLiteralAt_folded in E as (mid & Hs & H). by exists "", mid, rest.
    + destruct (matchLiteralAt p (String c s)) as [rest|] eqn:E.
      * intros _. apply matchLiteralAt_folded in E as (mid & Hs & H).
        by exists "", mid, rest.
      * intros (pre & mid & post & -> & H)%IH. by exists (String c pre), mid, post.
  - intros (pre & mid & post & -> & H). induction pre as [|c pre IH]; simpl.
    + assert (matchLiteralAt p (mid +:+ post) = Some post) as E
        by (apply matchLiteralAt_folded; by exists mid).
      destruct (mid +:+ post); simpl; by rewrite E.
    + rewrite IH. by destruct (matchLiteralAt p _).
Qed.

(** A text that contains the pattern matches it. *)
Lemma regexTest_contains (p pre post : string) :
  regexTest p (pre +:+ p +:+ post) = true.
Proof.
  induction pre as [|c pre IH]; simpl.
  - destruct p as [|a p]; simpl.
    + by destruct post.
    + rewrite N.eqb_refl, matchLiteralAt_self. done.
  - rewrite IH. by destruct (matchLiteralAt p _).
Qed.

Lemma isValidBrowser_blocked (ua pattern : string) :
  pattern ∈ blockedUserAgents → regexTest pattern ua = true →
  isValidBrowser (Some ua) = false.
Proof.
  intros Hin Ht. unfold isValidBrowser.
  destruct (negb (nonempty ua)); [done|].
  by rewrite (existsb_elem (λ p, regexTest p ua) _ pattern Hin Ht).
Qed.

Lemma isValidBrowser_modern (ua pattern ds : string) :
  ua ≠ "" →
  (∀ p, p ∈ blockedUserAgents → regexTest p ua = false) →
  pattern ∈ modernBrowsers → regexMatch pattern ua = Some ds →
  (70 ≤ parseInt ds)%N →
  isValidBrowser (Some ua) = true.
Proof.
  intros Hne Hnb Hin Hm Hv. unfold isValidBrowser.
  destruct ua as [|c ua]; [done|]. simpl negb. cbv iota.
  rewrite (existsb_none (λ p, regexTest p (String c ua)) _ Hnb).
  apply (existsb_elem _ _ pattern Hin). rewrite Hm. by apply N.leb_le.
Qed.

Lemma regexMatch_text_nonempty (p ds : string) : regexMatch p "" = Some ds → p = "".
Proof.
  simpl. unfold matchVersionAt. destruct p; [done|]. simpl. done.
Qed.

Lemma referrerBypass_userAgentOff (config : Config) (req : Request) :
  referrerBypass (withoutCheck userAgentOff config) req = referrerBypass config req.
Proof.
  unfold referrerBypass, referrerAllowed, flag, withoutCheck.
  by destruct (downloadCheck config).
Qed.

Lemma referrerBypass_browserFeatureOff (config : Config) (req : Request) :
  referrerBypass (withoutCheck browserFeatureOff config) req = referrerBypass config req.
Proof.
  unfold referrerBypass, referrerAllowed, flag, withoutCheck.
  by destruct (downloadCheck config).
Qed.

(** Once the user-agent step is passed, the decision comes from the
    later steps. *)
Lemma validate_after_user_agent (config : Config) (req : Request) :
  isFileDownload req = true →
  referrerBypass config req = false →
  isValidBrowser (get req "User-Agent") = true →
  validateDownloadRequest config req ≠ Deny reasonUserAgent ∧
  validateDownloadRequest config req =
    validateDownloadRequest (withoutCheck userAgentOff config) req.
Proof.
  intros Hd Hb Hv. destruct reasons_distinct as (H1 & H2 & _).
  rewrite (validate_steps _ _ Hd Hb).
  rewrite (validate_steps (withoutCheck userAgentOff config) req Hd)
    by (by rewrite referrerBypass_userAgentOff).
  rewrite Hv, andb_false_r. unfold flag, withoutCheck.
  destruct (downloadCheck config) as [dc|]; simpl; [|done].
  split; [|done].
  repeat case_match; congruence.
Qed.

(** *** Letter case *)

Lemma canonicalize_lowerChar (c : ascii) : canonicalize (lowerChar c) = canonicalize c.
Proof. destruct c as [[] [] [] [] [] [] [] []]; reflexivity. Qed.

Lemma lowerOfCanonical_canonicalize (c : ascii) :
  GateNotions.lowerOfCanonical (canonicalize c) = lowerChar c.
Proof. destruct c as [[] [] [] [] [] [] [] []]; reflexivity. Qed.

(** Two characters match under the [i] flag exactly when they have
    the same lower case form. *)
Lemma canonicalize_eqb (a b : ascii) :
  (canonicalize a =? canonicalize b)%N = Ascii.eqb (lowerChar a) (lowerChar b).
Proof.
  destruct (N.eqb_spec (canonicalize a) (canonicalize b)) as [H|H];
    destruct (Ascii.eqb_spec (lowerChar a) (lowerChar b)) as [H'|H']; try done.
  - destruct H'. by rewrite <- !lowerOfCanonical_canonicalize, H.
  - destruct H. by rewrite <- (canonicalize_lowerChar a), H', canonicalize_lowerChar.
Qed.

Lemma matchLiteralAt_lower (p s : string) :
  matchLiteralAt p s =
    if startsWith (toLowerCase s) (toLowerCase p)
    then Some (substrFrom (String.length p) s) else None.
Proof.
  revert s. induction p as [|a p IH]; intros s; [done|].
  destruct s as [|b s]; [done|].
  cbn [matchLiteralAt toLowerCase startsWith String.length substrFrom].
  rewrite canonicalize_eqb, (Ascii.eqb_sym (lowerChar a)), IH.
  by destruct (Ascii.eqb (lowerChar b) (lowerChar a)).
Qed.

(** A literal pattern with the [i] flag matches a text exactly when
    the lower-cased text contains the lower-cased pattern. *)
Lemma regexTest_mentions (p s : string) : regexTest p s = GateNotions.mentions s p.
Proof.
  unfold GateNotions.mentions. induction s as [|c s IH].
  - cbn [regexTest toLowerCase includes]. rewrite matchLiteralAt_lower.
    cbn [toLowerCase]. by destruct (startsWith "" (toLowerCase p)).
  - cbn [regexTest]. rewrite matchLiteralAt_lower, IH.
    cbn [toLowerCase includes].
    by destruct (startsWith _ (toLowerCase p)).
Qed.

(** [match] captures the first of the numbers after the token. *)
Lemma regexMatch_first_version (p s : string) :
  regexMatch p s = head (GateNotions.versionsAfter p s).
Proof.
  induction s as [|c s IH].
  - cbn [regexMatch GateNotions.versionsAfter]. unfold matchVersionAt.
    rewrite matchLiteralAt_lower.
    destruct (startsWith (toLowerCase "") (toLowerCase p)); [|done].
    cbn [andb]. by destruct (nonempty _).
  - cbn [regexMatch GateNotions.versionsAfter]. unfold matchVersionAt.
    rewrite matchLiteralAt_lower, IH.
    destruct (startsWith (toLowerCase (String c s)) (toLowerCase p)); [|done].
    cbn [andb]. by destruct (nonempty _).
Qed.

Lemma versionsAfter_empty (p : string) : GateNotions.versionsAfter p "" = [].
Proof.
  cbn [GateNotions.versionsAfter].
  assert (substrFrom (String.length p) "" = "") as -> by (by destruct (String.length p)).
  cbn [takeDigits nonempty]. by rewrite andb_false_r.
Qed.

(** C3. With enableUserAgent on, on a download that does not take the
    referrer bypass: a request with no user-agent (none, or an empty
    one), or with a user-agent that contains one of the blocked words
    in whatever case its letters are written, is denied. A user-agent
    that contains none of the blocked words passes the step when, for
    one of the tokens Chrome/, Firefox/, Safari/, Edg/, OPR/ (in any
    case), the first number written directly after the token is at
    least 70: the decision is not the denial of this step, and it is
    the one the gate gives with the step switched off. It is the
    first such number that counts, not any: see the counterexample
    below. *)
Theorem C3_user_agent_step (config : Config) (req : Request) (dc : DownloadCheck) :
  downloadCheck config = Some dc →
  enableUserAgent dc = true →
  isFileDownload req = true →
  referrerBypass config req = false →
  (truthy (get req "User-Agent") = false →
   validateDownloadRequest config req = Deny reasonUserAgent) ∧
  (∀ ua word,
     get req "User-Agent" = Some ua →
     word ∈ blockedUserAgents → GateNotions.mentions ua word = true →
     validateDownloadRequest config req = Deny reasonUserAgent) ∧
  (∀ ua token ds,
     get req "User-Agent" = Some ua →
     (∀ word, word ∈ blockedUserAgents → GateNotions.mentions ua word = false) →
     token ∈ modernBrowsers →
     head (GateNotions.versionsAfter token ua) = Some ds →
     (70 ≤ parseInt ds)%N →
     isValidBrowser (Some ua) = true ∧
     validateDownloadRequest config req ≠ Deny reasonUserAgent ∧
     validateDownloadRequest config req =
       validateDownloadRequest (withoutCheck userAgentOff config) req).
Proof.
  intros Hdc Hen Hd Hb.
  pose proof (validate_steps _ _ Hd Hb) as Hsteps.
  rewrite (flag_Some enableUserAgent _ _ Hdc), Hen in Hsteps.
  split; [|split].
  - intros Hua. rewrite Hsteps.
    assert (isValidBrowser (get req "User-Agent") = false) as ->; [|done].
    by destruct (get req "User-Agent") as [[|c ua]|].
  - intros ua word Hua Hin Hm. rewrite <- regexTest_mentions in Hm.
    by rewrite Hsteps, Hua, (isValidBrowser_blocked _ _ Hin Hm).
  - intros ua token ds Hua Hnb Hin Hm Hv.
    assert (ua ≠ "") as Hne.
    { intros ->. by rewrite versionsAfter_empty in Hm. }
    rewrite <- regexMatch_first_version in Hm.
    assert (∀ p, p ∈ blockedUserAgents → regexTest p ua = false) as Hnb'.
    { intros p Hp. rewrite regexTest_mentions. by apply Hnb. }
    pose proof (isValidBrowser_modern _ _ _ Hne Hnb' Hin Hm Hv) as Hvalid.
    split; [done|]. apply validate_after_user_agent; [done..|]. by rewrite Hua.
Qed.

(** A user-agent that contains none of the blocked words and reads
    Chrome/120, and is denied all the same: Chrome/50 stands before
    it, and [match] stops at the first number. *)
Lemma C3_counterexample :
  get MoreSamples.zipByTwoChromes "User-Agent" = Some MoreSamples.twoChromesUA ∧
  Forall (λ word, GateNotions.mentions MoreSamples.twoChromesUA word = false)
         blockedUserAgents ∧
  MoreSamples.twoChromesUA = "Mozilla/5.0 Chrome/50.0 " +:+ "Chrome/" +:+ "120" +:+ ".0" ∧
  "Chrome/" ∈ modernBrowsers ∧
  (70 ≤ parseInt "120")%N ∧
  GateNotions.versionsAfter "Chrome/" MoreSamples.twoChromesUA = ["50"; "120"] ∧
  flag enableUserAgent Samples.strictConfig = true ∧
  isFileDownload MoreSamples.zipByTwoChromes = true ∧
  referrerBypass Samples.strictConfig MoreSamples.zipByTwoChromes = false ∧
  isValidBrowser (Some MoreSamples.twoChromesUA) = false ∧
  validateDownloadRequest Samples.strictConfig MoreSamples.zipByTwoChromes
    = Deny reasonUserAgent.
Proof.
  split; [vm_compute; reflexivity|].
  split; [apply (bool_decide_unpack _); vm_compute; exact I|].
  split; [vm_compute; reflexivity|].
  split; [apply (bool_decide_unpack _); vm_compute; exact I|].
  split; [vm_compute; discriminate|].
  repeat split; vm_compute; reflexivity.
Qed.

(** *** The feature score *)

Lemma validate_after_features (config : Config) (req : Request) :
  isFileDownload req = true →
  referrerBypass config req = false →
  checkModernBrowserFeatures req = true →
  validateDownloadRequest config req ≠ Deny reasonBrowserFeature ∧
  validateDownloadRequest config req =
    validateDownloadRequest (withoutCheck browserFeatureOff config) req.
Proof.
  intros Hd Hb Hv. destruct reasons_distinct as (H1 & H2 & H3).
  rewrite (validate_steps _ _ Hd Hb).
  rewrite (validate_steps (withoutCheck browserFeatureOff config) req Hd)
    by (by rewrite referrerBypass_browserFeatureOff).
  rewrite Hv, andb_false_r. unfold flag, withoutCheck.
  destruct (downloadCheck config) as [dc|]; simpl; [|done].
  split; [|done].
  repeat case_match; congruence.
Qed.

(** C4. With enableBrowserFeature on, on a download that takes no
    bypass and passes the user-agent step when that one is on: a
    request that has 'Accept: */*' and none of the other headers the
    score looks at scores 0 and is denied; a request whose Accept
    contains 'text/html' and 'image/webp', which carries an
    Accept-Language, an Accept-Encoding containing 'gzip' and 'deflate'
    and a Cache-Control, scores at least 5 and passes the step. *)
Theorem C4_feature_score_step (config : Config) (req : Request) (dc : DownloadCheck) :
  downloadCheck config = Some dc →
  enableBrowserFeature dc = true →
  isFileDownload req = true →
  referrerBypass config req = false →
  (enableUserAgent dc = true → isValidBrowser (get req "User-Agent") = true) →
  (headers req !! "accept" = Some "*/*" →
   (∀ k, k ∈ scoredHeaders → headers req !! k = None) →
   featureScore req = 0%nat ∧
   validateDownloadRequest config req = Deny reasonBrowserFeature) ∧
  (∀ accept encoding,
     headers req !! "accept" = Some accept →
     includes accept "text/html" = true →
     includes accept "image/webp" = true →
     truthy (headers req !! "accept-language") = true →
     headers req !! "accept-encoding" = Some encoding →
     includes encoding "gzip" = true →
     includes encoding "deflate" = true →
     truthy (headers req !! "cache-control") = true →
     (minScore ≤ featureScore req)%nat ∧
     checkModernBrowserFeatures req = true ∧
     validateDownloadRequest config req ≠ Deny reasonBrowserFeature ∧
     validateDownloadRequest config req =
       validateDownloadRequest (withoutCheck browserFeatureOff config) req).
Proof.
  intros Hdc Hen Hd Hb Hua.
  pose proof (validate_steps _ _ Hd Hb) as Hsteps.
  rewrite (flag_Some enableUserAgent _ _ Hdc),
    (flag_Some enableBrowserFeature _ _ Hdc), Hen in Hsteps.
  assert (enableUserAgent dc && negb (isValidBrowser (get req "User-Agent")) = false) as HuaOk.
  { destruct (enableUserAgent dc); [|done]. by rewrite Hua. }
  rewrite HuaOk in Hsteps.
  split.
  - intros Hacc Hnone.
    assert (featureScore req = 0%nat) as Hscore.
    { unfold featureScore. rewrite Hacc.
      rewrite !Hnone by (apply (bool_decide_unpack _); vm_compute; exact I).
      reflexivity. }
    split; [done|].
    rewrite Hsteps. unfold checkModernBrowserFeatures. by rewrite Hscore.
  - intros accept encoding Hacc Hhtml Hwebp Hlang Henc Hgzip Hdefl Hcc.
    assert (accept ≠ "") as Hane by (by intros ->).
    assert (encoding ≠ "") as Hene by (by intros ->).
    assert (minScore ≤ featureScore req)%nat as Hscore.
    { unfold featureScore, minScore.
      rewrite Hacc, Henc, Hlang, Hcc, !or_empty_Some, Hhtml, Hwebp, Hgzip, Hdefl,
        (truthy_Some _ Hane), (truthy_Some _ Hene).
      simpl. lia. }
    assert (checkModernBrowserFeatures req = true) as Hcheck.
    { unfold checkModernBrowserFeatures. by apply Nat.leb_le. }
    split; [done|]. split; [done|].
    by apply validate_after_features.
Qed.

(** *** The referrer step *)

(** C5. With enableReferrer on, on a download that passes the
    user-agent step and the feature score where they are on: a request
    that carries no referrer and whose path does not contain
    'index.html' is denied. A request without a referrer cannot take
    the allowlist bypass. *)
Theorem C5_missing_referrer_denied (config : Config) (req : Request) (dc : DownloadCheck) :
  downloadCheck config = Some dc →
  enableReferrer dc = true →
  isFileDownload req = true →
  (enableUserAgent dc = true → isValidBrowser (get req "User-Agent") = true) →
  (enableBrowserFeature dc = true → checkModernBrowserFeatures req = true) →
  truthy (referrerOf req) = false →
  includes (path req) "index.html" = false →
  referrerBypass config req = false ∧
  validateDownloadRequest config req = Deny reasonReferrer.
Proof.
  intros Hdc Hen Hd Hua Hfeat Href Hidx.
  assert (referrerBypass config req = false) as Hb.
  { unfold referrerBypass. by rewrite Href, andb_false_r. }
  split; [done|].
  rewrite (validate_steps _ _ Hd Hb).
  rewrite (flag_Some enableUserAgent _ _ Hdc), (flag_Some enableBrowserFeature _ _ Hdc),
    (flag_Some enableReferrer _ _ Hdc), Hen, Href, Hidx.
  destruct (enableUserAgent dc); [rewrite Hua by done|];
    (destruct (enableBrowserFeature dc); [rewrite Hfeat by done|]); done.
Qed.

(** *** The challenge *)

Lemma hasJsCheck_setJsCookie (req : Request) : hasJsCheck (setJsCookie req) = true.
Proof. unfold hasJsCheck, setJsCookie. simpl. by rewrite lookup_insert_eq. Qed.

Lemma validate_with_cookie (config : Config) (req : Request) :
  isFileDownload req = true →
  referrerBypass config req = false →
  (flag enableUserAgent config = true → isValidBrowser (get req "User-Agent") = true) →
  (flag enableBrowserFeature config = true → checkModernBrowserFeatures req = true) →
  (flag enableReferrer config = true →
   truthy (referrerOf req) || includes (path req) "index.html" = true) →
  validateDownloadRequest config req =
    if flag enableJsCheck config && negb (hasJsCheck req) then Challenge else Allow.
Proof.
  intros Hd Hb Hua Hfeat Href.
  rewrite (validate_steps _ _ Hd Hb).
  destruct (flag enableUserAgent config); [rewrite Hua by done|];
    (destruct (flag enableBrowserFeature config); [rewrite Hfeat by done|]);
    (destruct (flag enableReferrer config); [specialize (Href eq_refl)|]); simpl; try done.
  all: by destruct (truthy (referrerOf req)), (includes (path req) "index.html").
Qed.

Lemma visit_allowed (config : Config) (req : Request) (n : nat) :
  validateDownloadRequest config req = Allow →
  visit config req n = replicate n Allow.
Proof.
  intros H. induction n as [|n IH]; [done|].
  simpl. unfold browserStep. rewrite H. by rewrite IH.
Qed.

(** C6. With enableJsCheck on, for a download that takes no bypass and
    passes every other check that is on: without the jsEnabled cookie
    the request receives the challenge; the same request with the
    cookie the challenge page sets is let through; and every further
    request with the cookie is let through again. The decision is a
    function of the request alone: a browser that reloads with the
    cookie receives the challenge once and then only Allow. *)
Theorem C6_challenge_converges (config : Config) (req : Request) :
  flag enableJsCheck config = true →
  isFileDownload req = true →
  referrerBypass config req = false →
  (flag enableUserAgent config = true → isValidBrowser (get req "User-Agent") = true) →
  (flag enableBrowserFeature config = true → checkModernBrowserFeatures req = true) →
  (flag enableReferrer config = true →
   truthy (referrerOf req) || includes (path req) "index.html" = true) →
  hasJsCheck req = false →
  validateDownloadRequest config req = Challenge ∧
  validateDownloadRequest config (setJsCookie req) = Allow ∧
  visit config req 3 = [Challenge; Allow; Allow] ∧
  ∀ n, visit config req (S n) = Challenge :: replicate n Allow.
Proof.
  intros Hjs Hd Hb Hua Hfeat Href Hno.
  assert (validateDownloadRequest config req = Challenge) as H1.
  { rewrite (validate_with_cookie _ _ Hd Hb Hua Hfeat Href). by rewrite Hjs, Hno. }
  assert (validateDownloadRequest config (setJsCookie req) = Allow) as H2.
  { rewrite (validate_with_cookie config (setJsCookie req) Hd Hb Hua Hfeat Href).
    by rewrite hasJsCheck_setJsCookie, andb_false_r. }
  assert (∀ n, visit config req (S n) = Challenge :: replicate n Allow) as H3.
  { intros n. simpl. unfold browserStep. rewrite H1. by rewrite (visit_allowed _ _ _ H2). }
  split; [done|]. split; [done|]. split; [apply (H3 2%nat) | done].
Qed.

(** *** Checks that are switched off *)

(** C7. A check whose flag is false never decides: with
    enableUserAgent off no request is denied for its user-agent, with
    enableBrowserFeature off none for its headers, with enableReferrer
    off none for a missing referrer, with enableJsCheck off none
    receives the challenge; with the four flags off, and with no
    downloadCheck in the configuration at all, every request is let
    through. *)
Theorem C7_disabled_checks_pass (config : Config) (req : Request) :
  (flag enableUserAgent config = false →
   validateDownloadRequest config req ≠ Deny reasonUserAgent) ∧
  (flag enableBrowserFeature config = false →
   validateDownloadRequest config req ≠ Deny reasonBrowserFeature) ∧
  (flag enableReferrer config = false →
   validateDownloadRequest config req ≠ Deny reasonReferrer) ∧
  (flag enableJsCheck config = false →
   validateDownloadRequest config req ≠ Challenge) ∧
  (flag enableUserAgent config = false → flag enableBrowserFeature config = false →
   flag enableReferrer config = false → flag enableJsCheck config = false →
   validateDownloadRequest config req = Allow) ∧
  (downloadCheck config = None → validateDownloadRequest config req = Allow).
Proof.
  destruct reasons_distinct as (H1 & H2 & H3).
  assert (∀ f, downloadCheck config = None → flag f config = false) as Hnone.
  { intros f H. unfold flag. by rewrite H. }
  assert (flag enableUserAgent config = false → flag enableBrowserFeature config = false →
          flag enableReferrer config = false → flag enableJsCheck config = false →
          validateDownloadRequest config req = Allow) as Hall.
  { intros Ha Hb Hc Hd. unfold validateDownloadRequest, referrerBypass.
    rewrite Ha, Hb, Hc, Hd. simpl. by destruct (isFileDownload req). }
  repeat split; try done.
  - intros Hf. unfold validateDownloadRequest. rewrite Hf. simpl.
    repeat case_match; congruence.
  - intros Hf. unfold validateDownloadRequest. rewrite Hf. simpl.
    repeat case_match; congruence.
  - intros Hf. unfold validateDownloadRequest. rewrite Hf. simpl.
    repeat case_match; congruence.
  - intros Hf. unfold validateDownloadRequest. rewrite Hf. simpl.
    repeat case_match; congruence.
  - intros H. apply Hall; by apply Hnone.
Qed.

Lemma C1_witness :
  validateDownloadRequest Samples.strictConfig Samples.pageByCurl = Allow.
Proof.
  apply C1_not_a_download_is_allowed.
  - apply (bool_decide_unpack _). vm_compute. exact I.
  - vm_compute. reflexivity.
  - vm_compute. reflexivity.
  - vm_compute. reflexivity.
Defined.

Lemma C2_witness :
  isFileDownload Samples.zipByCurlFromAllowedPage = true ∧
  isValidBrowser (get Samples.zipByCurlFromAllowedPage "User-Agent") = false ∧
  checkModernBrowserFeatures Samples.zipByCurlFromAllowedPage = false ∧
  validateDownloadRequest Samples.strictConfig Samples.zipByCurlFromAllowedPage = Allow.
Proof.
  split; [vm_compute; reflexivity|].
  split; [vm_compute; reflexivity|].
  split; [vm_compute; reflexivity|].
  eapply (C2_allowed_referrer_bypasses Samples.strictConfig
            Samples.zipByCurlFromAllowedPage _ _
            "https://files.example.org/list" "files.example.org").
  - reflexivity.
  - reflexivity.
  - reflexivity.
  - vm_compute. reflexivity.
  - discriminate.
  - apply (bool_decide_unpack _). vm_compute. exact I.
  - vm_compute. reflexivity.
Defined.

Lemma C3_witness :
  validateDownloadRequest Samples.strictConfig Samples.zipNoUA = Deny reasonUserAgent ∧
  validateDownloadRequest Samples.strictConfig MoreSamples.zipByUpperCaseCurl
    = Deny reasonUserAgent ∧
  isValidBrowser (Some Samples.chromeUA) = true ∧
  validateDownloadRequest Samples.strictConfig Samples.zipByChrome ≠ Deny reasonUserAgent.
Proof.
  split; [|split].
  - apply (C3_user_agent_step Samples.strictConfig Samples.zipNoUA _ eq_refl eq_refl).
    + vm_compute. reflexivity.
    + vm_compute. reflexivity.
    + vm_compute. reflexivity.
  - apply (C3_user_agent_step Samples.strictConfig MoreSamples.zipByUpperCaseCurl _
             eq_refl eq_refl)
      with (ua := "CURL/8.4.0 Chrome/120.0") (word := "curl").
    + vm_compute. reflexivity.
    + vm_compute. reflexivity.
    + vm_compute. reflexivity.
    + apply (bool_decide_unpack _). vm_compute. exact I.
    + vm_compute. reflexivity.
  - assert (isFileDownload Samples.zipByChrome = true) as Hd
      by (vm_compute; reflexivity).
    assert (referrerBypass Samples.strictConfig Samples.zipByChrome = false) as Hb
      by (vm_compute; reflexivity).
    destruct (C3_user_agent_step Samples.strictConfig Samples.zipByChrome _
                eq_refl eq_refl Hd Hb) as (_ & _ & Hpass).
    destruct (Hpass Samples.chromeUA "Chrome/" "120") as (Hv & Hne & _).
    + vm_compute. reflexivity.
    + apply Forall_forall.
      repeat (constructor; [vm_compute; reflexivity|]). constructor.
    + apply (bool_decide_unpack _). vm_compute. exact I.
    + vm_compute. reflexivity.
    + vm_compute. discriminate.
    + split; assumption.
Defined.

Lemma C4_witness :
  (featureScore Samples.zipByChrome = 0%nat ∧
   validateDownloadRequest Samples.strictConfig Samples.zipByChrome
     = Deny reasonBrowserFeature) ∧
  ((minScore ≤ featureScore Samples.zipByBrowser)%nat ∧
   validateDownloadRequest Samples.strictConfig Samples.zipByBrowser
     ≠ Deny reasonBrowserFeature).
Proof.
  split.
  - assert (isFileDownload Samples.zipByChrome = true) as Hd
      by (vm_compute; reflexivity).
    assert (referrerBypass Samples.strictConfig Samples.zipByChrome = false) as Hb
      by (vm_compute; reflexivity).
    assert (isValidBrowser (get Samples.zipByChrome "User-Agent") = true) as Hua
      by (vm_compute; reflexivity).
    destruct (C4_feature_score_step Samples.strictConfig Samples.zipByChrome _
                eq_refl eq_refl Hd Hb (λ _, Hua)) as (Hzero & _).
    apply Hzero.
    + vm_compute. reflexivity.
    + apply Forall_forall.
      repeat (constructor; [vm_compute; reflexivity|]). constructor.
  - assert (isFileDownload Samples.zipByBrowser = true) as Hd
      by (vm_compute; reflexivity).
    assert (referrerBypass Samples.strictConfig Samples.zipByBrowser = false) as Hb
      by (vm_compute; reflexivity).
    assert (isValidBrowser (get Samples.zipByBrowser "User-Agent") = true) as Hua
      by (vm_compute; reflexivity).
    destruct (C4_feature_score_step Samples.strictConfig Samples.zipByBrowser _
                eq_refl eq_refl Hd Hb (λ _, Hua)) as (_ & Hrich).
    destruct (Hrich "text/html,application/xhtml+xml,image/webp,*/*;q=0.8"
                    "gzip, deflate, br") as (Hs & _ & Hne & _);
      try (vm_compute; reflexivity).
    split; assumption.
Defined.

Lemma C5_witness :
  referrerBypass Samples.strictConfig Samples.zipByBrowserNoReferrer = false ∧
  validateDownloadRequest Samples.strictConfig Samples.zipByBrowserNoReferrer
    = Deny reasonReferrer.
Proof.
  apply (C5_missing_referrer_denied Samples.strictConfig
           Samples.zipByBrowserNoReferrer _ eq_refl eq_refl).
  - vm_compute. reflexivity.
  - intros _. vm_compute. reflexivity.
  - intros _. vm_compute. reflexivity.
  - vm_compute. reflexivity.
  - vm_compute. reflexivity.
Defined.

Lemma C6_witness :
  validateDownloadRequest Samples.strictConfig Samples.zipByBrowser = Challenge ∧
  validateDownloadRequest Samples.strictConfig (setJsCookie Samples.zipByBrowser) = Allow ∧
  visit Samples.strictConfig Samples.zipByBrowser 3 = [Challenge; Allow; Allow].
Proof.
  destruct (C6_challenge_converges Samples.strictConfig Samples.zipByBrowser)
    as (H1 & H2 & H3 & _).
  - reflexivity.
  - vm_compute. reflexivity.
  - vm_compute. reflexivity.
  - intros _. vm_compute. reflexivity.
  - intros _. vm_compute. reflexivity.
  - intros _. vm_compute. reflexivity.
  - vm_compute. reflexivity.
  - repeat split; assumption.
Defined.

Lemma C7_witness :
  validateDownloadRequest Samples.laxConfig Samples.zipByCurl ≠ Deny reasonUserAgent ∧
  validateDownloadRequest Samples.laxConfig Samples.zipByCurl ≠ Deny reasonBrowserFeature ∧
  validateDownloadRequest Samples.laxConfig Samples.zipByCurl ≠ Deny reasonReferrer ∧
  validateDownloadRequest Samples.laxConfig Samples.zipByCurl ≠ Challenge ∧
  validateDownloadRequest Samples.laxConfig Samples.zipByCurl = Allow ∧
  validateDownloadRequest Samples.noConfig Samples.zipByCurl = Allow.
Proof.
  destruct (C7_disabled_checks_pass Samples.laxConfig Samples.zipByCurl)
    as (H1 & H2 & H3 & H4 & H5 & _).
  destruct (C7_disabled_checks_pass Samples.noConfig Samples.zipByCurl)
    as (_ & _ & _ & _ & _ & H6).
  split; [exact (H1 eq_refl)|].
  split; [exact (H2 eq_refl)|].
  split; [exact (H3 eq_refl)|].
  split; [exact (H4 eq_refl)|].
  split; [exact (H5 eq_refl eq_refl eq_refl eq_refl)|].
  exact (H6 eq_refl).
Defined.

End GateSpec.


(** * Properties of the geolocation cache *)

Module CacheSpec.
Import JsString Express Hosting.

(** *** The insertion-ordered map *)

Lemma mapSet_present (k : string) (v : Z) (m : list (string * Z)) :
  k ∈ m.*1 → (mapSet k v m).*1 = m.*1.
Proof.
  induction m as [|[k' v'] m IH]; csimpl; [by intros ?%elem_of_nil|].
  case_bool_decide as E; csimpl; [by subst|].
  intros [?|?]%elem_of_cons; [congruence|]. by rewrite IH.
Qed.

Lemma mapSet_fresh (k : string) (v : Z) (m : list (string * Z)) :
  k ∉ m.*1 → mapSet k v m = m ++ [(k, v)].
Proof.
  induction m as [|[k' v'] m IH]; simpl; [done|].
  intros [Hne Hn]%not_elem_of_cons.
  rewrite bool_decide_eq_false_2 by done. by rewrite IH.
Qed.

Lemma mapGet_mapSet (k : string) (v : Z) (m : list (string * Z)) :
  mapGet k (mapSet k v m) = Some v.
Proof.
  induction m as [|[k' v'] m IH]; simpl.
  - by rewrite bool_decide_eq_true_2.
  - case_bool_decide as E; simpl.
    + by rewrite bool_decide_eq_true_2.
    + by rewrite bool_decide_eq_false_2.
Qed.

Lemma mapGet_mapSet_ne (k k' : string) (v : Z) (m : list (string * Z)) :
  k ≠ k' → mapGet k' (mapSet k v m) = mapGet k' m.
Proof.
  intros Hne. induction m as [|[k0 v0] m IH]; simpl.
  - by rewrite bool_decide_eq_false_2.
  - case_bool_decide as E; simpl in *.
    + subst k0. by rewrite !bool_decide_eq_false_2.
    + by rewrite IH.
Qed.

Lemma mapDelete_keys (k : string) (m : list (string * Z)) :
  (mapDelete k m).*1 = filter (λ x, x ≠ k) m.*1.
Proof.
  unfold mapDelete. induction m as [|[k' v'] m IH]; [done|].
  rewrite fmap_cons, !filter_cons. cbn [fst].
  destruct (decide (k' ≠ k)); [rewrite fmap_cons|]; by rewrite IH.
Qed.

Lemma mapDelete_absent (k : string) (m : list (string * Z)) :
  k ∉ (mapDelete k m).*1.
Proof. rewrite mapDelete_keys, list_elem_of_filter. by intros [? _]. Qed.

Lemma keys_mapSet (k : string) (v : Z) (m : list (string * Z)) :
  list_to_set (mapSet k v m).*1 =@{gset string} {[k]} ∪ list_to_set m.*1.
Proof.
  destruct (decide (k ∈ m.*1)) as [Hin|Hnin].
  - rewrite (mapSet_present _ _ _ Hin).
    apply set_eq. intros x. rewrite elem_of_union, elem_of_singleton, !elem_of_list_to_set.
    split; [by right | by intros [->|?]].
  - rewrite (mapSet_fresh _ _ _ Hnin), fmap_app, list_to_set_app_L. simpl.
    rewrite (right_id_L ∅ (∪)). apply (comm_L (∪)).
Qed.

Lemma keys_mapDelete (k : string) (m : list (string * Z)) :
  list_to_set (mapDelete k m).*1 =@{gset string} list_to_set m.*1 ∖ {[k]}.
Proof.
  apply set_eq. intros x.
  rewrite elem_of_difference, elem_of_singleton, !elem_of_list_to_set,
    mapDelete_keys, list_elem_of_filter.
  tauto.
Qed.

(** *** The two maps hold the same keys *)

Lemma consistent_lookup (c : Cache) (k : string) :
  consistent c → (is_Some (ipInfoCache c !! k) ↔ k ∈ timeKeys c).
Proof.
  unfold consistent. intros H.
  by rewrite <- elem_of_dom, H, elem_of_list_to_set.
Qed.

Lemma consistent_empty : consistent emptyCache.
Proof. unfold consistent. simpl. by rewrite dom_empty_L. Qed.

Lemma consistent_evictOldest (c : Cache) :
  consistent c → consistent (evictOldest c).
Proof.
  unfold consistent, evictOldest, timeKeys. intros H.
  repeat case_match; try done. simpl.
  by rewrite dom_delete_L, keys_mapDelete, H.
Qed.

Lemma consistent_getIPInfo (c : Cache) (ip : string) (now : Z) (answer : option IpInfo) :
  consistent c → consistent (cache (getIPInfo c ip now answer)).
Proof.
  intros H. unfold getIPInfo. case_bool_decide as Hhit; simpl.
  - unfold consistent, timeKeys in *. simpl. rewrite keys_mapSet, <- H.
    apply elem_of_dom in Hhit. apply set_eq. intros x.
    rewrite elem_of_union, elem_of_singleton. split; [by right | by intros [->|?]].
  - pose proof (consistent_evictOldest _ H) as H1.
    unfold consistent, timeKeys in *. simpl.
    by rewrite dom_insert_L, keys_mapSet, H1.
Qed.

Lemma consistent_enrich (c : Cache) (req : Request) (now : Z) (answer : option IpInfo) :
  consistent c → consistent (cache (enrich c req now answer)).
Proof.
  intros H. unfold enrich. case_bool_decide; [done|]. by apply consistent_getIPInfo.
Qed.

Lemma consistent_runLookups (ops : list Lookup) (c : Cache) :
  consistent c → consistent (runLookups ops c).
Proof.
  revert c. induction ops as [|op ops IH]; intros c H; [done|].
  simpl. apply IH. by apply consistent_getIPInfo.
Qed.

Lemma consistent_runVisits (vs : list Visit) (c : Cache) :
  consistent c → consistent (runVisits vs c).
Proof.
  revert c. induction vs as [|v vs IH]; intros c H; [done|].
  simpl. apply IH. by apply consistent_enrich.
Qed.

(** C10. Whatever a cache operation does (a hit, a miss answered by
    ipinfo.io, a miss whose request fails, with or without an eviction
    before it), it leaves the value map and the access-time map with
    the same set of addresses if it found them so; the eviction block
    alone, a request through the middleware and any run of such
    operations do too. *)
Theorem C10_both_maps_keep_the_same_keys (c : Cache) :
  consistent c →
  (∀ ip now answer, consistent (cache (getIPInfo c ip now answer))) ∧
  consistent (evictOldest c) ∧
  (∀ req now answer, consistent (cache (enrich c req now answer))) ∧
  (∀ ops, consistent (runLookups ops c)) ∧
  (∀ vs, consistent (runVisits vs c)).
Proof.
  intros H. repeat split; intros.
  - by apply consistent_getIPInfo.
  - by apply consistent_evictOldest.
  - by apply consistent_enrich.
  - by apply consistent_runLookups.
  - by apply consistent_runVisits.
Qed.

(** *** The scan for the oldest entry *)

Lemma scan_from (m : list (string * Z)) (k : string) (t : Z) :
  ∃ k' t',
    fold_left (λ acc e, if olderThan e.2 acc.2 then (Some e.1, Some e.2) else acc)
              m (Some k, Some t) = (Some k', Some t') ∧
    ((k', t') = (k, t) ∨ (k', t') ∈ m) ∧
    t' ≤ t ∧
    ∀ e, e ∈ m → t' ≤ e.2.
Proof.
  revert k t. induction m as [|[k0 t0] m IH]; intros k t.
  - exists k, t. split; [done|]. split; [by left|]. split; [lia|].
    by intros e ?%elem_of_nil.
  - cbn [fold_left olderThan fst snd]. destruct (Z.ltb_spec t0 t) as [Hlt|Hge].
    + destruct (IH k0 t0) as (k' & t' & Heq & Hin & Hle & Hmin).
      exists k', t'. split; [done|]. split.
      { right. destruct Hin as [->|Hin]; [by left | by right]. }
      split; [lia|].
      intros e [->|He]%elem_of_cons; [done | by apply Hmin].
    + destruct (IH k t) as (k' & t' & Heq & Hin & Hle & Hmin).
      exists k', t'. split; [done|]. split.
      { destruct Hin as [Hin|Hin]; [by left | by right; right]. }
      split; [lia|].
      intros e [->|He]%elem_of_cons; [simpl; lia | by apply Hmin].
Qed.

(** On a map that is not empty the scan ends on an entry of the map
    whose time no other entry is below. *)
Lemma oldestScan_min (m : list (string * Z)) :
  m ≠ [] →
  ∃ k t, oldestScan m = (Some k, Some t) ∧ (k, t) ∈ m ∧ ∀ e, e ∈ m → t ≤ e.2.
Proof.
  destruct m as [|[k0 t0] m]; [done|]. intros _.
  unfold oldestScan. cbn [fold_left olderThan fst snd].
  destruct (scan_from m k0 t0) as (k & t & Heq & Hin & Hle & Hmin).
  exists k, t. split; [done|]. split.
  - destruct Hin as [->|Hin]; [by left | by right].
  - intros e [->|He]%elem_of_cons; [done | by apply Hmin].
Qed.

(** An entry that no later entry is strictly below stays the oldest:
    among equal times the scan keeps the first. *)
Lemma oldestScan_head (k : string) (t : Z) (m : list (string * Z)) :
  (∀ e, e ∈ m → t ≤ e.2) → oldestScan ((k, t) :: m) = (Some k, Some t).
Proof.
  unfold oldestScan. cbn [fold_left olderThan fst snd].
  induction m as [|[k0 t0] m IH]; intros Hmin; [done|].
  cbn [fold_left olderThan fst snd].
  assert (t ≤ t0) as Hle by apply (Hmin (k0, t0)), list_elem_of_here.
  destruct (Z.ltb_spec t0 t); [lia|].
  apply IH. intros e He. apply Hmin. by right.
Qed.

(** *** The eviction block *)

Lemma size_keys (c : Cache) :
  consistent c → NoDup (timeKeys c) →
  size (ipInfoCache c) = length (ipAccessTimes c).
Proof.
  intros Hc Hnd. rewrite <- size_dom, Hc, (size_list_to_set _ Hnd).
  unfold timeKeys. by rewrite length_fmap.
Qed.

Lemma evictOldest_below (c : Cache) :
  (size (ipInfoCache c) < MAX_CACHE_SIZE)%nat → evictOldest c = c.
Proof.
  intros H. unfold evictOldest.
  destruct (Nat.leb_spec MAX_CACHE_SIZE (size (ipInfoCache c))); [lia | done].
Qed.

Lemma evictOldest_full (c : Cache) :
  cacheInv c → (MAX_CACHE_SIZE ≤ size (ipInfoCache c))%nat →
  ∃ victim tv,
    (victim, tv) ∈ ipAccessTimes c ∧
    (∀ e, e ∈ ipAccessTimes c → tv ≤ e.2) ∧
    (oldestScan (ipAccessTimes c)).1 = Some victim ∧
    evictOldest c = {| ipInfoCache := delete victim (ipInfoCache c);
                       ipAccessTimes := mapDelete victim (ipAccessTimes c) |}.
Proof.
  intros [Hc Hnd Hne Hsz] Hfull.
  assert (ipAccessTimes c ≠ []) as Hnil.
  { intros Hnil. rewrite (size_keys _ Hc Hnd), Hnil in Hfull.
    unfold MAX_CACHE_SIZE in Hfull. simpl in Hfull. lia. }
  destruct (oldestScan_min _ Hnil) as (victim & tv & Hscan & Hin & Hmin).
  exists victim, tv. split; [done|]. split; [done|]. split; [by rewrite Hscan|].
  unfold evictOldest.
  destruct (Nat.leb_spec MAX_CACHE_SIZE (size (ipInfoCache c))); [|lia].
  rewrite Hscan. simpl.
  destruct victim as [|a victim]; [|done].
  exfalso. apply Hne. unfold timeKeys.
  by apply (list_elem_of_fmap_2 fst _ ("", tv)).
Qed.

(** The eviction block leaves room for one address. *)
Lemma evictOldest_inv (c : Cache) :
  cacheInv c →
  cacheInv (evictOldest c) ∧ (size (ipInfoCache (evictOldest c)) < MAX_CACHE_SIZE)%nat.
Proof.
  intros Hinv.
  destruct (Nat.lt_ge_cases (size (ipInfoCache c)) MAX_CACHE_SIZE) as [Hlt|Hge].
  - by rewrite (evictOldest_below _ Hlt).
  - destruct (evictOldest_full _ Hinv Hge) as (victim & tv & Hin & _ & _ & Heq).
    pose proof (consistent_evictOldest _ (inv_consistent _ Hinv)) as Hc'.
    destruct Hinv as [Hc Hnd Hne Hsz].
    assert (is_Some (ipInfoCache c !! victim)) as [g Hg].
    { apply (consistent_lookup _ _ Hc). unfold timeKeys.
      by apply (list_elem_of_fmap_2 fst _ (victim, tv)). }
    rewrite Heq in *. simpl.
    assert (size (delete victim (ipInfoCache c)) < MAX_CACHE_SIZE)%nat as Hsz'.
    { rewrite map_size_delete_Some by eauto. unfold MAX_CACHE_SIZE in *. lia. }
    split; [|done]. split; simpl.
    + done.
    + unfold timeKeys. simpl. rewrite mapDelete_keys. by apply NoDup_filter.
    + unfold timeKeys. simpl. rewrite mapDelete_keys, list_elem_of_filter.
      intros [_ ?]. by apply Hne.
    + lia.
Qed.

(** *** One call *)

Lemma getIPInfo_miss (c : Cache) (ip : string) (now : Z) (answer : option IpInfo) :
  ipInfoCache c !! ip = None →
  getIPInfo c ip now answer =
    {| value := answer;
       cache := {| ipInfoCache := <[ip := answer]> (ipInfoCache (evictOldest c));
                   ipAccessTimes := mapSet ip now (ipAccessTimes (evictOldest c)) |};
       calls := [ip] |}.
Proof.
  intros H. unfold getIPInfo. rewrite bool_decide_eq_false_2; [done|].
  rewrite H. by intros [? ?].
Qed.

Lemma evictOldest_lookup_None (c : Cache) (ip : string) :
  ipInfoCache c !! ip = None → ipInfoCache (evictOldest c) !! ip = None.
Proof.
  intros H. unfold evictOldest. repeat case_match; try done.
  simpl. apply lookup_delete_None. by right.
Qed.

Lemma getIPInfo_inv (c : Cache) (ip : string) (now : Z) (answer : option IpInfo) :
  cacheInv c → ip ≠ "" → cacheInv (cache (getIPInfo c ip now answer)).
Proof.
  intros Hinv Hip.
  pose proof (consistent_getIPInfo c ip now answer (inv_consistent _ Hinv)) as Hc'.
  destruct (ipInfoCache c !! ip) as [g|] eqn:Hlook.
  - destruct Hinv as [Hc Hnd Hne Hsz].
    assert (ip ∈ timeKeys c) as Hin by (apply (consistent_lookup _ _ Hc); eauto).
    unfold getIPInfo in *. rewrite bool_decide_eq_true_2 in * by eauto.
    split; simpl; [done| | |done].
    + unfold timeKeys. simpl. by rewrite (mapSet_present _ _ _ Hin).
    + unfold timeKeys. simpl. by rewrite (mapSet_present _ _ _ Hin).
  - destruct (evictOldest_inv _ Hinv) as [[Hc1 Hnd1 Hne1 _] Hsz1].
    pose proof (evictOldest_lookup_None _ _ Hlook) as Hlook1.
    assert (ip ∉ timeKeys (evictOldest c)) as Hnin.
    { intros Hin%(consistent_lookup _ _ Hc1). rewrite Hlook1 in Hin. by destruct Hin. }
    rewrite (getIPInfo_miss _ _ _ _ Hlook) in *. simpl.
    split; simpl; [done| | |].
    + unfold timeKeys in *. simpl. rewrite (mapSet_fresh _ _ _ Hnin), fmap_app.
      apply NoDup_app. split; [done|]. split; [|apply NoDup_singleton].
      intros x Hx [->|[]%elem_of_nil]%elem_of_cons. by apply Hnin.
    + unfold timeKeys in *. simpl. rewrite (mapSet_fresh _ _ _ Hnin), fmap_app.
      intros [?|[?|[]%elem_of_nil]%elem_of_cons]%elem_of_app; [by apply Hne1|].
      by apply Hip.
    + rewrite map_size_insert_None by done. unfold MAX_CACHE_SIZE in *. lia.
Qed.

Lemma cacheInv_empty : cacheInv emptyCache.
Proof.
  split.
  - apply consistent_empty.
  - apply NoDup_nil_2.
  - apply not_elem_of_nil.
  - simpl. rewrite map_size_empty. unfold MAX_CACHE_SIZE. lia.
Qed.

Lemma runLookups_inv (ops : list Lookup) (c : Cache) :
  cacheInv c → Forall (λ op, lookupIp op ≠ "") ops → cacheInv (runLookups ops c).
Proof.
  revert c. induction ops as [|op ops IH]; intros c Hinv Hne; [done|].
  apply Forall_cons in Hne as [Hop Hne].
  simpl. apply IH; [|done]. by apply getIPInfo_inv.
Qed.

Lemma runLookups_app (l1 l2 : list Lookup) (c : Cache) :
  runLookups (l1 ++ l2) c = runLookups l2 (runLookups l1 c).
Proof. unfold runLookups. by rewrite fold_left_app. Qed.

(** *** A miss when the cache is full *)

Lemma miss_at_capacity (c : Cache) (ip : string) (now : Z) (answer : option IpInfo) :
  cacheInv c →
  ipInfoCache c !! ip = None →
  size (ipInfoCache c) = MAX_CACHE_SIZE →
  ∃ victim tv,
    (victim, tv) ∈ ipAccessTimes c ∧
    (∀ e, e ∈ ipAccessTimes c → tv ≤ e.2) ∧
    victim ≠ ip ∧
    getIPInfo c ip now answer =
      {| value := answer;
         cache := {| ipInfoCache := <[ip := answer]> (delete victim (ipInfoCache c));
                     ipAccessTimes := mapDelete victim (ipAccessTimes c) ++ [(ip, now)] |};
         calls := [ip] |} ∧
    size (ipInfoCache (cache (getIPInfo c ip now answer))) = MAX_CACHE_SIZE.
Proof.
  intros Hinv Hlook Hfull.
  destruct (evictOldest_full c Hinv) as (victim & tv & Hin & Hmin & _ & Heq); [lia|].
  assert (ip ∉ timeKeys c) as Hnin.
  { intros Hk%(consistent_lookup _ _ (inv_consistent _ Hinv)).
    rewrite Hlook in Hk. by destruct Hk. }
  assert (victim ∈ timeKeys c) as Hvin
    by (by apply (list_elem_of_fmap_2 fst _ (victim, tv))).
  assert (victim ≠ ip) as Hne by (by intros ->).
  assert (ip ∉ (mapDelete victim (ipAccessTimes c)).*1) as Hnin'.
  { rewrite mapDelete_keys, list_elem_of_filter. by intros [_ ?]. }
  exists victim, tv. split; [done|]. split; [done|]. split; [done|].
  rewrite (getIPInfo_miss _ _ _ _ Hlook), Heq. simpl.
  rewrite (mapSet_fresh _ _ _ Hnin'). split; [done|].
  rewrite map_size_insert_None by (apply lookup_delete_None; by right).
  rewrite map_size_delete_Some
    by (by apply (consistent_lookup _ _ (inv_consistent _ Hinv))).
  rewrite Hfull. done.
Qed.

(** *** More addresses than the cache holds *)

Lemma mapDelete_not_in (k : string) (m : list (string * Z)) :
  k ∉ m.*1 → mapDelete k m = m.
Proof.
  unfold mapDelete. induction m as [|[k' v'] m IH]; [done|].
  rewrite fmap_cons. intros [Hne Hn]%not_elem_of_cons.
  rewrite filter_cons. cbn [fst] in *.
  destruct (decide (k' ≠ k)) as [|n]; [by rewrite IH | by destruct n; intros ->].
Qed.

Lemma lookupEntry_keys (ops : list Lookup) :
  (lookupEntry <$> ops).*1 = lookupIp <$> ops.
Proof. by rewrite <- list_fmap_compose. Qed.

(** Addresses that are new, while there is room, are appended in the
    order of the calls. *)
Lemma runLookups_fresh (ops : list Lookup) (c : Cache) :
  cacheInv c →
  NoDup (lookupIp <$> ops) →
  Forall (λ op, lookupIp op ≠ "") ops →
  (∀ op, op ∈ ops → lookupIp op ∉ timeKeys c) →
  (size (ipInfoCache c) + length ops ≤ MAX_CACHE_SIZE)%nat →
  ipAccessTimes (runLookups ops c) = ipAccessTimes c ++ (lookupEntry <$> ops).
Proof.
  revert c. induction ops as [|op ops IH]; intros c Hinv Hnd Hne Hnew Hsz.
  - simpl. by rewrite app_nil_r.
  - rewrite fmap_cons in Hnd. apply NoDup_cons in Hnd as [Hop Hnd].
    apply Forall_cons in Hne as [Hip Hne].
    assert (lookupIp op ∉ timeKeys c) as Hnin by apply Hnew, list_elem_of_here.
    assert (ipInfoCache c !! lookupIp op = None) as Hlook.
    { apply eq_None_not_Some. intros Hs. apply Hnin.
      by apply (consistent_lookup _ _ (inv_consistent _ Hinv)). }
    pose proof (getIPInfo_inv c (lookupIp op) (lookupTime op) (lookupAnswer op) Hinv Hip)
      as Hinv'.
    simpl in Hsz.
    assert (evictOldest c = c) as Hev by (apply evictOldest_below; lia).
    simpl. rewrite (getIPInfo_miss _ _ _ _ Hlook), Hev in *. simpl in *.
    rewrite IH; try done.
    + simpl. rewrite (mapSet_fresh _ _ _ Hnin). by rewrite <- app_assoc.
    + intros op' Hop'. unfold timeKeys. simpl.
      rewrite (mapSet_fresh _ _ _ Hnin), fmap_app.
      intros [Hk|[Hk|[]%elem_of_nil]%elem_of_cons]%elem_of_app.
      * apply (Hnew op'); [by right | done].
      * apply Hop. simpl in Hk. rewrite <- Hk. by apply list_elem_of_fmap_2.
    + simpl. rewrite map_size_insert_None by done. lia.
Qed.

Lemma sorted_head_least (t : Z) (ts : list Z) :
  Sorted Z.lt (t :: ts) → ∀ t', t' ∈ ts → t < t'.
Proof.
  intros Hs%Sorted_StronglySorted; [|intros ???; lia].
  apply StronglySorted_inv in Hs as [_ Hall].
  intros t' Ht'. by apply (proj1 (Forall_forall _ _) Hall).
Qed.

(** One address more than the cache holds, all new and each at a later
    time than the one before: the first one goes, the others stay in
    the order of the calls. *)
Lemma over_capacity (first last : Lookup) (middle : list Lookup) :
  S (length middle) = MAX_CACHE_SIZE →
  Forall (λ op, lookupIp op ≠ "") (first :: middle ++ [last]) →
  NoDup (lookupIp <$> first :: middle ++ [last]) →
  Sorted Z.lt (lookupTime <$> first :: middle ++ [last]) →
  ipAccessTimes (runLookups (first :: middle ++ [last]) emptyCache)
    = lookupEntry <$> middle ++ [last].
Proof.
  intros Hlen Hne Hnd Hsorted.
  rewrite app_comm_cons in Hne, Hnd |- *.
  apply Forall_app in Hne as [Hne1 Hne2]. apply Forall_cons in Hne2 as [Hlast _].
  rewrite fmap_app in Hnd. apply NoDup_app in Hnd as (Hnd1 & Hdisj & _).
  rewrite runLookups_app.
  pose proof (runLookups_inv _ _ cacheInv_empty Hne1) as Hinv.
  set (c := runLookups (first :: middle) emptyCache) in *.
  assert (ipAccessTimes c = lookupEntry first :: (lookupEntry <$> middle)) as Hc.
  { subst c. pose proof (runLookups_fresh (first :: middle) emptyCache cacheInv_empty
                           Hnd1 Hne1) as ->; [done| |].
    - intros op _. apply not_elem_of_nil.
    - simpl. rewrite map_size_empty. lia. }
  assert (size (ipInfoCache c) = MAX_CACHE_SIZE) as Hfull.
  { rewrite (size_keys _ (inv_consistent _ Hinv) (inv_nodup _ Hinv)), Hc.
    simpl. by rewrite length_fmap. }
  assert (lookupIp last ∉ timeKeys c) as Hnin.
  { unfold timeKeys. rewrite Hc, <- fmap_cons, lookupEntry_keys.
    intros Hin. apply (Hdisj _ Hin). simpl. apply list_elem_of_here. }
  assert (ipInfoCache c !! lookupIp last = None) as Hlook.
  { apply eq_None_not_Some. intros Hs. apply Hnin.
    by apply (consistent_lookup _ _ (inv_consistent _ Hinv)). }
  assert (lookupIp first ∉ (lookupEntry <$> middle).*1) as Hfirst.
  { rewrite lookupEntry_keys. rewrite fmap_cons in Hnd1. by apply NoDup_cons in Hnd1 as [? _]. }
  assert ((oldestScan (ipAccessTimes c)).1 = Some (lookupIp first)) as Hscan.
  { rewrite Hc. unfold lookupEntry at 1. rewrite oldestScan_head; [done|].
    intros e (op & -> & Hop)%list_elem_of_fmap. simpl.
    apply Z.lt_le_incl, (sorted_head_least _ (lookupTime <$> middle ++ [last])).
    - exact Hsorted.
    - apply list_elem_of_fmap_2, elem_of_app. by left. }
  assert (evictOldest c = {| ipInfoCache := delete (lookupIp first) (ipInfoCache c);
                             ipAccessTimes := lookupEntry <$> middle |}) as Hev.
  { unfold evictOldest. rewrite Hfull, Hscan. simpl.
    apply Forall_cons in Hne1 as [Hf _].
    destruct (lookupIp first) eqn:E; [done|]. simpl.
    rewrite Hc. unfold lookupEntry at 1. rewrite E.
    unfold mapDelete. rewrite filter_cons. cbn [fst].
    rewrite decide_False by (by intros ?).
    fold (mapDelete (String a s) (lookupEntry <$> middle)).
    by rewrite mapDelete_not_in. }
  simpl. rewrite (getIPInfo_miss _ _ _ _ Hlook), Hev. simpl.
  rewrite mapSet_fresh, fmap_app; [done|].
  intros Hin. apply Hnin. unfold timeKeys. rewrite Hc, fmap_cons. by right.
Qed.

(** *** The middleware *)

Lemma getRealIP_nonempty (req : Request) : getRealIP req ≠ "".
Proof.
  unfold getRealIP.
  match goal with |- or_empty (or_else ?o _) ≠ _ => generalize o end.
  intros [[|a s]|]; done.
Qed.

Lemma enrich_inv (c : Cache) (req : Request) (now : Z) (answer : option IpInfo) :
  cacheInv c → cacheInv (cache (enrich c req now answer)).
Proof.
  intros H. unfold enrich. case_bool_decide; [done|].
  apply getIPInfo_inv; [done | apply getRealIP_nonempty].
Qed.

(** The bound holds for every run of requests: [getRealIP] never
    yields the empty string. *)
Lemma runVisits_bounded (vs : list Visit) :
  cacheInv (runVisits vs emptyCache).
Proof.
  generalize cacheInv_empty. generalize emptyCache.
  induction vs as [|v vs IH]; intros c Hinv; [done|].
  simpl. apply IH. by apply enrich_inv.
Qed.

(** Calls that do not overlap. After any run of calls of [getIPInfo],
    each run to its return before the next begins, on addresses that
    are not the empty string (and [getRealIP] supplies no other, so
    after any run of requests served one at a time) the cache holds
    at most MAX_CACHE_SIZE = 100 addresses, each with its access
    time. A miss that finds the cache full removes one entry, one
    whose access time no other entry is below, and then stores the new
    address, so the cache is full again. In particular one address
    more than the cache holds, all different and at strictly increasing
    times, leaves the cache without the first address, the one with the
    smallest time, and with all the others. *)
Lemma sequential_lookups_bounded_and_oldest_evicted (ops : list Lookup) :
  Forall (λ op, lookupIp op ≠ "") ops →
  (size (ipInfoCache (runLookups ops emptyCache)) ≤ MAX_CACHE_SIZE)%nat ∧
  (∀ vs, (size (ipInfoCache (runVisits vs emptyCache)) ≤ MAX_CACHE_SIZE)%nat) ∧
  length (ipAccessTimes (runLookups ops emptyCache))
    = size (ipInfoCache (runLookups ops emptyCache)) ∧
  (∀ ip now answer,
     ipInfoCache (runLookups ops emptyCache) !! ip = None →
     size (ipInfoCache (runLookups ops emptyCache)) = MAX_CACHE_SIZE →
     ∃ victim tv,
       (victim, tv) ∈ ipAccessTimes (runLookups ops emptyCache) ∧
       (∀ e, e ∈ ipAccessTimes (runLookups ops emptyCache) → tv ≤ e.2) ∧
       victim ≠ ip ∧
       getIPInfo (runLookups ops emptyCache) ip now answer =
         {| value := answer;
            cache :=
              {| ipInfoCache :=
                   <[ip := answer]> (delete victim (ipInfoCache (runLookups ops emptyCache)));
                 ipAccessTimes :=
                   mapDelete victim (ipAccessTimes (runLookups ops emptyCache))
                   ++ [(ip, now)] |};
            calls := [ip] |} ∧
       size (ipInfoCache (cache (getIPInfo (runLookups ops emptyCache) ip now answer)))
         = MAX_CACHE_SIZE) ∧
  (∀ first middle last,
     ops = first :: middle ++ [last] →
     S (length middle) = MAX_CACHE_SIZE →
     NoDup (lookupIp <$> ops) →
     Sorted Z.lt (lookupTime <$> ops) →
     ipAccessTimes (runLookups ops emptyCache) = lookupEntry <$> middle ++ [last] ∧
     ipInfoCache (runLookups ops emptyCache) !! lookupIp first = None ∧
     (∀ op, op ∈ middle ++ [last] →
        is_Some (ipInfoCache (runLookups ops emptyCache) !! lookupIp op) ∧
        lookupTime first < lookupTime op)).
Proof.
  intros Hne.
  pose proof (runLookups_inv ops emptyCache cacheInv_empty Hne) as Hinv.
  split; [apply (inv_size _ Hinv)|].
  split; [intros vs; apply inv_size, runVisits_bounded|].
  split; [symmetry; apply size_keys; [apply (inv_consistent _ Hinv) | apply (inv_nodup _ Hinv)]|].
  split; [intros ip now answer; by apply miss_at_capacity|].
  intros first middle last -> Hlen Hnd Hsorted.
  pose proof (over_capacity first last middle Hlen Hne Hnd Hsorted) as Htimes.
  split; [done|].
  assert (timeKeys (runLookups (first :: middle ++ [last]) emptyCache)
          = lookupIp <$> middle ++ [last]) as Hkeys.
  { unfold timeKeys. by rewrite Htimes, lookupEntry_keys. }
  split.
  - apply eq_None_not_Some.
    intros Hin%(consistent_lookup _ _ (inv_consistent _ Hinv)).
    rewrite Hkeys in Hin. rewrite fmap_cons in Hnd.
    by apply NoDup_cons in Hnd as [? _].
  - intros op Hop. split.
    + apply (consistent_lookup _ _ (inv_consistent _ Hinv)).
      rewrite Hkeys. by apply list_elem_of_fmap_2.
    + apply (sorted_head_least _ (lookupTime <$> middle ++ [last])); [exact Hsorted|].
      by apply list_elem_of_fmap_2.
Qed.

(** *** Calls that overlap *)

(** C8. A hundred and fifty visitors whose requests all reach the
    middleware before ipinfo.io has answered for any of them, on the
    empty cache. Each call of [getIPInfo] finds fewer than
    MAX_CACHE_SIZE addresses in the cache, evicts nothing and is
    suspended on its request; when the answers come each address is
    stored. No call is left suspended, ipinfo.io was asked once for
    each visitor, and both maps hold 150 addresses, 50 more than
    MAX_CACHE_SIZE: the bound does not hold. The same visitors served
    one at a time leave 100 addresses. *)
Theorem C8_overlapping_lookups_overfill_the_cache :
  Concurrent.inFlight (Concurrent.run (MoreSamples.burst 150) Concurrent.idle) = [] ∧
  Concurrent.asked (Concurrent.run (MoreSamples.burst 150) Concurrent.idle)
    = Samples.address <$> seq 1 150 ∧
  size (ipInfoCache (Concurrent.maps (Concurrent.run (MoreSamples.burst 150) Concurrent.idle)))
    = 150%nat ∧
  length (ipAccessTimes
            (Concurrent.maps (Concurrent.run (MoreSamples.burst 150) Concurrent.idle)))
    = 150%nat ∧
  (MAX_CACHE_SIZE
   < size (ipInfoCache
             (Concurrent.maps (Concurrent.run (MoreSamples.burst 150) Concurrent.idle))))%nat ∧
  size (ipInfoCache
          (Concurrent.maps
             (Concurrent.run (Concurrent.serial (Samples.visits 150)) Concurrent.idle)))
    = MAX_CACHE_SIZE.
Proof.
  split; [vm_compute; reflexivity|].
  split; [vm_compute; reflexivity|].
  split; [vm_compute; reflexivity|].
  split; [vm_compute; reflexivity|].
  split; [apply (bool_decide_unpack _); vm_compute; exact I|].
  vm_compute. reflexivity.
Qed.

(** *** Hits *)

(** [getIPInfo] on an address that is in the cache: the stored value,
    no request to ipinfo.io, the values untouched and the time of the
    address set to [now]. *)
Lemma getIPInfo_hit (c : Cache) (ip : string) (now : Z) (answer : option IpInfo)
    (stored : GeoEntry) :
  ipInfoCache c !! ip = Some stored →
  getIPInfo c ip now answer =
    {| value := stored;
       cache := {| ipInfoCache := ipInfoCache c;
                   ipAccessTimes := mapSet ip now (ipAccessTimes c) |};
       calls := [] |} ∧
  mapGet ip (ipAccessTimes (cache (getIPInfo c ip now answer))) = Some now.
Proof.
  intros H. unfold getIPInfo. rewrite bool_decide_eq_true_2 by eauto.
  rewrite H. simpl. split; [done|]. apply mapGet_mapSet.
Qed.

(** The middleware on an address that is in the cache: the stored
    value, no request to ipinfo.io, and both maps as they were, the
    time of the address included. *)
Lemma enrich_hit (c : Cache) (req : Request) (now : Z) (answer : option IpInfo)
    (stored : GeoEntry) :
  ipInfoCache c !! getRealIP req = Some stored →
  enrich c req now answer = {| value := stored; cache := c; calls := [] |}.
Proof.
  intros H. unfold enrich. rewrite bool_decide_eq_true_2 by eauto. by rewrite H.
Qed.

(** A failed request is not made again while its entry is in the
    cache, neither by [getIPInfo] nor by the middleware. *)
Lemma failure_not_retried (c : Cache) (req : Request) (now : Z) (answer : option IpInfo) :
  ipInfoCache c !! getRealIP req = Some None →
  value (getIPInfo c (getRealIP req) now answer) = None ∧
  calls (getIPInfo c (getRealIP req) now answer) = [] ∧
  ipInfoCache (cache (getIPInfo c (getRealIP req) now answer)) !! getRealIP req = Some None ∧
  value (enrich c req now answer) = None ∧
  calls (enrich c req now answer) = [] ∧
  ipInfoCache (cache (enrich c req now answer)) !! getRealIP req = Some None.
Proof.
  intros H.
  destruct (getIPInfo_hit c _ now answer _ H) as [-> _].
  by rewrite (enrich_hit c _ now answer _ H).
Qed.

(** C9. The hit of the middleware against the hit of [getIPInfo], on
    the cache of a hundred visitors seen at the times 1 to 100, when
    the first of them comes again at time 200. [getIPInfo] called on
    its address returns the stored value (here the [null] of a failed
    request), asks ipinfo.io nothing and sets the time of the address
    to 200. The middleware finds the address in [ipInfoCache] and does
    not call [getIPInfo]: it returns the stored value and asks
    ipinfo.io nothing, but the time of the address stays 1, and the
    next new visitor evicts the address that was used last. *)
Theorem C9_middleware_hit_keeps_the_old_time :
  ipInfoCache Samples.fullCache !! Samples.address 1 = Some None ∧
  mapGet (Samples.address 1) (ipAccessTimes Samples.fullCache) = Some 1 ∧
  value (getIPInfo Samples.fullCache (Samples.address 1) 200 None) = None ∧
  calls (getIPInfo Samples.fullCache (Samples.address 1) 200 None) = [] ∧
  mapGet (Samples.address 1)
    (ipAccessTimes (cache (getIPInfo Samples.fullCache (Samples.address 1) 200 None)))
    = Some 200 ∧
  getRealIP (Samples.requestFrom 1) = Samples.address 1 ∧
  enrich Samples.fullCache (Samples.requestFrom 1) 200 None
    = {| value := None; cache := Samples.fullCache; calls := [] |} ∧
  mapGet (Samples.address 1)
    (ipAccessTimes (cache (enrich Samples.fullCache (Samples.requestFrom 1) 200 None)))
    = Some 1 ∧
  ipInfoCache (runVisits [Samples.visitAt 1 200; Samples.visitAt 101 201] Samples.fullCache)
    !! Samples.address 1 = None ∧
  is_Some (ipInfoCache (runVisits [Samples.visitAt 1 200; Samples.visitAt 101 201]
                                  Samples.fullCache)
           !! Samples.address 2).
Proof.
  split; [vm_compute; reflexivity|].
  split; [vm_compute; reflexivity|].
  split; [vm_compute; reflexivity|].
  split; [vm_compute; reflexivity|].
  split; [vm_compute; reflexivity|].
  split; [vm_compute; reflexivity|].
  split; [vm_compute; reflexivity|].
  split; [vm_compute; reflexivity|].
  split; [vm_compute; reflexivity|].
  apply (bool_decide_unpack _). vm_compute. exact I.
Qed.

Lemma C10_witness :
  consistent (cache (getIPInfo Samples.smallCache (Samples.address 2) 7 None)) ∧
  consistent (cache (getIPInfo Samples.smallCache (Samples.address 9) 7 (Some Samples.someInfo))) ∧
  consistent (evictOldest Samples.smallCache).
Proof.
  assert (consistent Samples.smallCache) as H
    by (apply (bool_decide_unpack _); vm_compute; exact I).
  destruct (C10_both_maps_keep_the_same_keys Samples.smallCache H) as (Hget & Hev & _).
  split; [apply Hget|]. split; [apply Hget | exact Hev].
Defined.

End CacheSpec.

(** * Further properties of the gate *)

Module GateMore.
Import JsString Express CheckDownload GateNotions.

(** *** The class of a request *)

Lemma lowerChar_slash (c : ascii) : Ascii.eqb (lowerChar c) "/" = Ascii.eqb c "/".
Proof. destruct c as [[] [] [] [] [] [] [] []]; reflexivity. Qed.

Lemma lowerChar_dot (c : ascii) : Ascii.eqb (lowerChar c) "." = Ascii.eqb c ".".
Proof. destruct c as [[] [] [] [] [] [] [] []]; reflexivity. Qed.

Lemma lowerChar_idem (c : ascii) : lowerChar (lowerChar c) = lowerChar c.
Proof. destruct c as [[] [] [] [] [] [] [] []]; reflexivity. Qed.

Lemma chars_toLowerCase (s : string) : chars (toLowerCase s) = lowerChar <$> chars s.
Proof. induction s as [|c s IH]; [done|]. simpl. by rewrite IH. Qed.

Lemma extnameLoop_lower (l : list ascii) (i : Z) (st : NodePath.scan) :
  NodePath.extnameLoop (lowerChar <$> l) i st = NodePath.extnameLoop l i st.
Proof.
  revert i st. induction l as [|c l IH]; intros i st; [done|].
  rewrite fmap_cons. cbn [NodePath.extnameLoop].
  rewrite lowerChar_slash, lowerChar_dot.
  destruct (Ascii.eqb c "/"); [destruct (negb _); [done | apply IH]|].
  apply IH.
Qed.

Lemma rev_fmap {A B} (f : A → B) (l : list A) : rev (f <$> l) = f <$> rev l.
Proof.
  induction l as [|x l IH]; [done|].
  rewrite fmap_cons. cbn [rev]. by rewrite IH, fmap_app.
Qed.

Lemma substrTo_lower (n : nat) (s : string) :
  substrTo n (toLowerCase s) = toLowerCase (substrTo n s).
Proof. revert s. induction n as [|n IH]; intros [|c s]; simpl; try done. by rewrite IH. Qed.

Lemma substrFrom_lower (n : nat) (s : string) :
  substrFrom n (toLowerCase s) = toLowerCase (substrFrom n s).
Proof. revert s. induction n as [|n IH]; intros [|c s]; simpl; try done. Qed.

(** The extension of the lower-cased path is the lower-cased
    extension: [path.extname] looks for slashes and dots only. *)
Lemma extname_toLowerCase (p : string) :
  NodePath.extname (toLowerCase p) = toLowerCase (NodePath.extname p).
Proof.
  unfold NodePath.extname.
  rewrite chars_toLowerCase, rev_fmap, length_fmap, extnameLoop_lower.
  case_match; [done|].
  unfold slice. by rewrite substrFrom_lower, substrTo_lower.
Qed.

(** X1. Whether a request counts as a download does not depend on the
    case of the letters of its path: two requests that differ only in
    their paths, and whose paths are the same once lower-cased, are
    both downloads or both not. An upper-case extension is no way
    around the gate. *)
Theorem X1_download_class_ignores_case (req : Request) (p q : string) :
  toLowerCase p = toLowerCase q →
  isFileDownload (withPath p req) = isFileDownload (withPath q req).
Proof.
  intros H. unfold isFileDownload. simpl.
  assert (toLowerCase (NodePath.extname p) = toLowerCase (NodePath.extname q)) as ->; [|done].
  by rewrite <- !extname_toLowerCase, H.
Qed.

(** *** The feature score *)

Lemma point_le1 (b : bool) : (point b ≤ 1)%nat.
Proof. destruct b; simpl; lia. Qed.

Lemma point_le (a b : bool) : (a = true → b = true) → (point a ≤ point b)%nat.
Proof. destruct a, b; simpl; intros H; try lia; by specialize (H eq_refl). Qed.

(** X2. The feature score of a request is at most 11, one point for
    each of the eleven signals, and a request that shows all of them
    scores 11. *)
Theorem X2_feature_score_is_at_most_11 :
  (∀ req, (featureScore req ≤ 11)%nat) ∧
  featureScore MoreSamples.zipWithAllHeaders = 11%nat.
Proof.
  split; [|vm_compute; reflexivity].
  intros req. unfold featureScore.
  repeat match goal with
         | |- context [point ?b] =>
             let H := fresh in
             pose proof (point_le1 b) as H; revert H; generalize (point b); intros ? ?
         end.
  lia.
Qed.

(** X3. Headers sent on top of those a request has never lower its
    feature score: with any headers added under names the request did
    not use, the score is at least what it was, and a request that
    passed the feature check still passes it. *)
Theorem X3_more_headers_never_lower_the_score (req : Request)
    (extra : gmap string string) :
  (featureScore req ≤ featureScore (withHeaders (headers req ∪ extra) req))%nat ∧
  (checkModernBrowserFeatures req = true →
   checkModernBrowserFeatures (withHeaders (headers req ∪ extra) req) = true).
Proof.
  set (h' := headers req ∪ extra).
  assert (∀ k v, headers req !! k = Some v → h' !! k = Some v) as Hv
    by (intros k v E; by apply lookup_union_Some_l).
  assert (∀ k, truthy (headers req !! k) = true →
               headers req !! k = h' !! k ∧ truthy (h' !! k) = true) as Hk.
  { intros k Hk. destruct (headers req !! k) as [v|] eqn:E; [|done].
    by rewrite (Hv _ _ E). }
  assert (featureScore req ≤ featureScore (withHeaders h' req))%nat as Hle.
  { unfold featureScore. simpl.
    repeat apply Nat.add_le_mono; apply point_le.
    - intros [H1 H2]%andb_true_iff. destruct (Hk _ H1) as [<- ->]. by rewrite H2.
    - intros [H1 H2]%andb_true_iff. destruct (Hk _ H1) as [<- ->]. by rewrite H2.
    - intros H. by destruct (Hk _ H).
    - intros [[H1 H2]%andb_true_iff H3]%andb_true_iff.
      destruct (Hk _ H1) as [<- ->]. by rewrite H2, H3.
    - intros H. by destruct (Hk _ H).
    - intros H. by destruct (Hk _ H).
    - intros H. by destruct (Hk _ H).
    - intros H. by destruct (Hk _ H).
    - intros H%bool_decide_eq_true. apply bool_decide_eq_true. by apply Hv.
    - intros H%bool_decide_eq_true. apply bool_decide_eq_true. by apply Hv.
    - intros H. by destruct (Hk _ H). }
  split; [done|].
  unfold checkModernBrowserFeatures. intros H%Nat.leb_le. apply Nat.leb_le. lia.
Qed.

(** *** The user-agent check *)

Lemma takeDigits_split (s : string) :
  ∃ post, s = takeDigits s +:+ post ∧ ∀ c, c ∈ chars (takeDigits s) → isDigit c = true.
Proof.
  induction s as [|c s (post & Hs & Hd)]; simpl.
  - exists "". split; [done|]. by intros c ?%elem_of_nil.
  - destruct (isDigit c) eqn:E.
    + exists post.
      split; [change (String c s = String c (takeDigits s +:+ post)); by f_equal|].
      simpl. intros c' [->|?]%elem_of_cons; [done | by apply Hd].
    + exists (String c s). split; [done|]. by intros c' ?%elem_of_nil.
Qed.

(** What [String.match] returns was found in the text: the pattern, up
    to the case of its letters, and right after it the digits. *)
Lemma regexMatch_occurrence (p s ds : string) :
  regexMatch p s = Some ds →
  ∃ pre mid post,
    s = pre +:+ mid +:+ ds +:+ post ∧ sameFolded p mid ∧
    ds ≠ "" ∧ ∀ c, c ∈ chars ds → isDigit c = true.
Proof.
  assert (∀ s, matchVersionAt p s = Some ds →
               ∃ mid post, s = mid +:+ ds +:+ post ∧ sameFolded p mid ∧
                           ds ≠ "" ∧ ∀ c, c ∈ chars ds → isDigit c = true) as Hat.
  { intros s0. unfold matchVersionAt.
    destruct (matchLiteralAt p s0) as [rest|] eqn:E; [|done].
    apply GateSpec.matchLiteralAt_folded in E as (mid & -> & Hmid).
    destruct (takeDigits_split rest) as (post & Hrest & Hd).
    destruct (takeDigits rest) as [|d ds0] eqn:Et; simpl; [done|].
    intros [= <-]. exists mid, post. by rewrite <- Hrest. }
  induction s as [|c s IH]; simpl.
  - destruct (matchVersionAt p "") eqn:E; [|done]. intros [= ->].
    destruct (Hat _ E) as (mid & post & ? & ? & ? & ?). by exists "", mid, post.
  - destruct (matchVersionAt p (String c s)) eqn:E.
    + intros [= ->]. destruct (Hat _ E) as (mid & post & ? & ? & ? & ?).
      by exists "", mid, post.
    + intros (pre & mid & post & -> & ?)%IH. by exists (String c pre), mid, post.
Qed.

(** X4. A user-agent that [isValidBrowser] accepts contains none of the
    thirteen blocked words, in whatever case their letters are
    written, and it contains one of 'Chrome/', 'Firefox/', 'Safari/',
    'Edg/', 'OPR/' (in any case) followed at once by digits that read
    as a number of at least 70. *)
Theorem X4_accepted_user_agent_is_a_browser (ua : string) :
  isValidBrowser (Some ua) = true →
  (∀ w pre mid post,
     w ∈ blockedUserAgents → ua = pre +:+ mid +:+ post → ¬ sameFolded w mid) ∧
  (∃ p pre mid ds post,
     p ∈ modernBrowsers ∧ ua = pre +:+ mid +:+ ds +:+ post ∧ sameFolded p mid ∧
     ds ≠ "" ∧ (∀ c, c ∈ chars ds → isDigit c = true) ∧ (70 ≤ parseInt ds)%N).
Proof.
  unfold isValidBrowser. destruct (negb (nonempty ua)); [done|].
  destruct (existsb _ blockedUserAgents) eqn:Hb; [done|].
  intros (p & Hp%list_elem_of_In & Hm)%existsb_exists. split.
  - intros w pre mid post Hw -> Hsame.
    assert (regexTest w (pre +:+ mid +:+ post) = true) as Ht
      by (apply GateSpec.regexTest_folded; by exists pre, mid, post).
    by rewrite (GateSpec.existsb_elem _ _ w Hw Ht) in Hb.
  - destruct (regexMatch p ua) as [ds|] eqn:E; [|done].
    apply regexMatch_occurrence in E as (pre & mid & post & -> & Hs & Hne & Hd).
    exists p, pre, mid, ds, post. repeat split; try done. by apply N.leb_le.
Qed.

(** *** The decisions *)

(** X5. The proof cookie changes a decision in one way only: for every
    configuration and request, the decision on the request with the
    cookie the challenge page sets is the decision on the request
    itself, except that a challenge becomes Allow. A denial stays the
    same denial. *)
Theorem X5_cookie_only_lifts_the_challenge (config : Config) (req : Request) :
  validateDownloadRequest config (setJsCookie req)
    = afterCookie (validateDownloadRequest config req).
Proof.
  unfold validateDownloadRequest.
  change (isFileDownload (setJsCookie req)) with (isFileDownload req).
  change (referrerBypass config (setJsCookie req)) with (referrerBypass config req).
  change (get (setJsCookie req) "User-Agent") with (get req "User-Agent").
  change (checkModernBrowserFeatures (setJsCookie req)) with (checkModernBrowserFeatures req).
  change (referrerOf (setJsCookie req)) with (referrerOf req).
  change (path (setJsCookie req)) with (path req).
  rewrite GateSpec.hasJsCheck_setJsCookie, andb_false_r.
  repeat case_match; done.
Qed.

(** The cases of a decision on a download that takes no bypass. *)
Ltac gate_cases config req H :=
  destruct (flag enableUserAgent config), (isValidBrowser (get req "User-Agent"));
  simpl in H; try done;
  destruct (flag enableBrowserFeature config), (checkModernBrowserFeatures req);
  simpl in H; try done;
  destruct (flag enableReferrer config), (truthy (referrerOf req)),
    (includes (path req) "index.html");
  simpl in H; try done;
  destruct (flag enableJsCheck config), (hasJsCheck req); simpl in H; try done.

(** X6. The gate lets a request through only for a reason: if the
    decision is Allow, the request is no download, or it takes the
    referrer bypass, or it passes every check that is switched on and,
    when the script check is on, carries the proof cookie. *)
Theorem X6_allow_has_a_reason (config : Config) (req : Request) :
  validateDownloadRequest config req = Allow →
  isFileDownload req = false ∨
  referrerBypass config req = true ∨
  (passesHardChecks config req ∧
   (flag enableJsCheck config = true → hasJsCheck req = true)).
Proof.
  intros H.
  destruct (isFileDownload req) eqn:Hd; [|by left].
  destruct (referrerBypass config req) eqn:Hb; [by right; left|].
  right. right.
  rewrite (GateSpec.validate_steps _ _ Hd Hb) in H.
  unfold passesHardChecks.
  gate_cases config req H; repeat split; intros; try done; auto.
Qed.

(** X7. The challenge page is sent last: a request that receives it is
    a download that takes no bypass, passes every other check that is
    switched on and lacks the proof cookie, and the script check is
    on. A client that one of the other checks blocks never sees the
    challenge. *)
Theorem X7_challenge_only_after_the_other_checks (config : Config) (req : Request) :
  validateDownloadRequest config req = Challenge →
  isFileDownload req = true ∧
  referrerBypass config req = false ∧
  passesHardChecks config req ∧
  flag enableJsCheck config = true ∧
  hasJsCheck req = false.
Proof.
  intros H.
  destruct (isFileDownload req) eqn:Hd;
    [|by rewrite (GateSpec.not_download_allow _ _ Hd) in H].
  destruct (referrerBypass config req) eqn:Hb.
  { unfold validateDownloadRequest in H. by rewrite Hd, Hb in H. }
  rewrite (GateSpec.validate_steps _ _ Hd Hb) in H.
  unfold passesHardChecks.
  gate_cases config req H; repeat split; intros; try done; auto.
Qed.

(** X8. A denial names the first check that fails, in the order
    user-agent, headers, referrer. A request that is denied is a
    download that takes no bypass, and the reason is one of the three:
    the user-agent reason means the user-agent check is on and failed;
    the header reason means, besides, that the user-agent check is off
    or passed; the referrer reason means that both earlier checks are
    off or passed, that the request has no referrer and that its path
    does not contain 'index.html'. *)
Theorem X8_denial_names_the_first_failing_check (config : Config) (req : Request)
    (reason : string) :
  validateDownloadRequest config req = Deny reason →
  isFileDownload req = true ∧
  referrerBypass config req = false ∧
  ((reason = reasonUserAgent ∧
    flag enableUserAgent config = true ∧
    isValidBrowser (get req "User-Agent") = false) ∨
   (reason = reasonBrowserFeature ∧
    flag enableBrowserFeature config = true ∧
    checkModernBrowserFeatures req = false ∧
    (flag enableUserAgent config = true → isValidBrowser (get req "User-Agent") = true)) ∨
   (reason = reasonReferrer ∧
    flag enableReferrer config = true ∧
    truthy (referrerOf req) = false ∧
    includes (path req) "index.html" = false ∧
    (flag enableUserAgent config = true → isValidBrowser (get req "User-Agent") = true) ∧
    (flag enableBrowserFeature config = true → checkModernBrowserFeatures req = true))).
Proof.
  intros H.
  destruct (isFileDownload req) eqn:Hd;
    [|by rewrite (GateSpec.not_download_allow _ _ Hd) in H].
  destruct (referrerBypass config req) eqn:Hb.
  { unfold validateDownloadRequest in H. by rewrite Hd, Hb in H. }
  split; [done|]. split; [done|].
  rewrite (GateSpec.validate_steps _ _ Hd Hb) in H.
  destruct (flag enableUserAgent config), (isValidBrowser (get req "User-Agent"));
    simpl in H; try (injection H as <-; by left);
    destruct (flag enableBrowserFeature config), (checkModernBrowserFeatures req);
    simpl in H; try (injection H as <-; right; left; by repeat split);
    destruct (flag enableReferrer config), (truthy (referrerOf req)),
      (includes (path req) "index.html");
    simpl in H; try (injection H as <-; right; right; by repeat split);
    by destruct (flag enableJsCheck config), (hasJsCheck req).
Qed.

(** *** The allowlist *)

Lemma referrerAllowed_widen (config : Config) (domains : list string) (r : string) :
  allowedDomains config ⊆ domains →
  referrerAllowed config r = true →
  referrerAllowed (withDomains domains config) r = true.
Proof.
  unfold referrerAllowed, withDomains, withoutCheck, allowedDomains.
  destruct (downloadCheck config) as [dc|]; simpl; [|done].
  destruct (allowedRefDomains dc) as [ds|]; [|done].
  intros Hsub (d & Hd%list_elem_of_In & Hinc)%existsb_exists.
  apply (GateSpec.existsb_elem _ _ d); [|done]. by apply Hsub.
Qed.

Lemma flag_withDomains (f : DownloadCheck → bool) (domains : list string) (config : Config) :
  (∀ dc, f (domainsSet domains dc) = f dc) →
  flag f (withDomains domains config) = flag f config.
Proof.
  intros H. unfold flag, withDomains, withoutCheck.
  destruct (downloadCheck config); simpl; [apply H | done].
Qed.

(** X9. Widening the allowlist blocks nobody: with a list of allowed
    referrer domains that holds every domain of the old one, the
    decision on each request is the one it was or it is Allow. *)
Theorem X9_wider_allowlist_only_allows_more (config : Config) (domains : list string)
    (req : Request) :
  allowedDomains config ⊆ domains →
  validateDownloadRequest (withDomains domains config) req
    = validateDownloadRequest config req ∨
  validateDownloadRequest (withDomains domains config) req = Allow.
Proof.
  intros Hsub.
  destruct (isFileDownload req) eqn:Hd;
    [|left; by rewrite !GateSpec.not_download_allow].
  destruct (referrerBypass (withDomains domains config) req) eqn:Hb'.
  { right. unfold validateDownloadRequest. by rewrite Hd, Hb'. }
  assert (referrerBypass config req = false) as Hb.
  { destruct (referrerBypass config req) eqn:Hb; [|done].
    unfold referrerBypass in *.
    rewrite (flag_withDomains enableReferrer) in Hb' by done.
    apply andb_true_iff in Hb as [Hb1 Hb2].
    rewrite Hb1, (referrerAllowed_widen _ _ _ Hsub Hb2) in Hb'. done. }
  left. rewrite !GateSpec.validate_steps by done.
  by rewrite !flag_withDomains.
Qed.

Lemma includes_empty (s : string) : includes s "" = true.
Proof. by destruct s. Qed.

(** X10. An empty entry in allowedRefDomains opens the gate to every
    request that names a referrer: every text contains the empty text,
    so with enableReferrer on such a request takes the bypass and is
    let through, whatever its user-agent, headers and cookies. *)
Theorem X10_empty_domain_allows_every_referrer (config : Config) (req : Request)
    (dc : DownloadCheck) (domains : list string) :
  downloadCheck config = Some dc →
  enableReferrer dc = true →
  allowedRefDomains dc = Some domains →
  "" ∈ domains →
  truthy (referrerOf req) = true →
  validateDownloadRequest config req = Allow.
Proof.
  intros Hdc Hen Hdom Hin Hr.
  unfold validateDownloadRequest.
  destruct (isFileDownload req); [|done]. simpl.
  assert (referrerBypass config req = true) as ->; [|done].
  unfold referrerBypass, referrerAllowed.
  rewrite (GateSpec.flag_Some _ _ _ Hdc), Hen, Hr, Hdc, Hdom. simpl.
  apply (GateSpec.existsb_elem _ _ ""); [done | apply includes_empty].
Qed.

(** *** The earlier version *)

(** X11. With the four checks switched on, the gate decides on a
    download that takes no bypass as its earlier version decides on
    any request: Allow, the challenge and each of the three denials
    are given by the one exactly when they are given by the other. *)
Theorem X11_gate_with_all_checks_is_the_legacy_gate (config : Config) (req : Request) :
  flag enableUserAgent config = true →
  flag enableBrowserFeature config = true →
  flag enableReferrer config = true →
  flag enableJsCheck config = true →
  isFileDownload req = true →
  referrerBypass config req = false →
  (validateDownloadRequest config req = Allow ↔ Legacy.validateDownloadRequest req = Allow) ∧
  (validateDownloadRequest config req = Challenge
     ↔ Legacy.validateDownloadRequest req = Challenge) ∧
  (validateDownloadRequest config req = Deny reasonUserAgent
     ↔ Legacy.validateDownloadRequest req = Deny Legacy.denyUserAgent) ∧
  (validateDownloadRequest config req = Deny reasonBrowserFeature
     ↔ Legacy.validateDownloadRequest req = Deny Legacy.denyBrowserFeature) ∧
  (validateDownloadRequest config req = Deny reasonReferrer
     ↔ Legacy.validateDownloadRequest req = Deny Legacy.denyReferrer).
Proof.
  intros H1 H2 H3 H4 Hd Hb.
  rewrite (GateSpec.validate_steps _ _ Hd Hb), H1, H2, H3, H4.
  unfold Legacy.validateDownloadRequest. simpl.
  destruct (isValidBrowser _), (checkModernBrowserFeatures req),
    (truthy (referrerOf req)), (includes (path req) "index.html"), (hasJsCheck req);
    simpl; repeat split; intros H; try done; try (by vm_compute in H).
Qed.

(** *** Instances *)

Lemma X1_witness :
  isFileDownload (withPath "/pub/Archive.ZIP" Samples.pageByCurl)
    = isFileDownload (withPath "/pub/archive.zip" Samples.pageByCurl).
Proof. apply X1_download_class_ignores_case. reflexivity. Defined.

Lemma X4_witness :
  ∃ p pre mid ds post,
    p ∈ modernBrowsers ∧ Samples.chromeUA = pre +:+ mid +:+ ds +:+ post ∧
    sameFolded p mid ∧ ds ≠ "" ∧ (∀ c, c ∈ chars ds → isDigit c = true) ∧
    (70 ≤ parseInt ds)%N.
Proof.
  apply (X4_accepted_user_agent_is_a_browser Samples.chromeUA).
  vm_compute. reflexivity.
Defined.

Lemma X6_witness :
  isFileDownload (setJsCookie Samples.zipByBrowser) = false ∨
  referrerBypass Samples.strictConfig (setJsCookie Samples.zipByBrowser) = true ∨
  (passesHardChecks Samples.strictConfig (setJsCookie Samples.zipByBrowser) ∧
   (flag enableJsCheck Samples.strictConfig = true →
    hasJsCheck (setJsCookie Samples.zipByBrowser) = true)).
Proof. apply X6_allow_has_a_reason. vm_compute. reflexivity. Defined.

Lemma X7_witness :
  isFileDownload Samples.zipByBrowser = true ∧
  referrerBypass Samples.strictConfig Samples.zipByBrowser = false ∧
  passesHardChecks Samples.strictConfig Samples.zipByBrowser ∧
  flag enableJsCheck Samples.strictConfig = true ∧
  hasJsCheck Samples.zipByBrowser = false.
Proof. apply X7_challenge_only_after_the_other_checks. vm_compute. reflexivity. Defined.

Lemma X8_witness :
  isFileDownload Samples.zipByChrome = true ∧
  referrerBypass Samples.strictConfig Samples.zipByChrome = false ∧
  ((reasonBrowserFeature = reasonUserAgent ∧
    flag enableUserAgent Samples.strictConfig = true ∧
    isValidBrowser (get Samples.zipByChrome "User-Agent") = false) ∨
   (reasonBrowserFeature = reasonBrowserFeature ∧
    flag enableBrowserFeature Samples.strictConfig = true ∧
    checkModernBrowserFeatures Samples.zipByChrome = false ∧
    (flag enableUserAgent Samples.strictConfig = true →
     isValidBrowser (get Samples.zipByChrome "User-Agent") = true)) ∨
   (reasonBrowserFeature = reasonReferrer ∧
    flag enableReferrer Samples.strictConfig = true ∧
    truthy (referrerOf Samples.zipByChrome) = false ∧
    includes (path Samples.zipByChrome) "index.html" = false ∧
    (flag enableUserAgent Samples.strictConfig = true →
     isValidBrowser (get Samples.zipByChrome "User-Agent") = true) ∧
    (flag enableBrowserFeature Samples.strictConfig = true →
     checkModernBrowserFeatures Samples.zipByChrome = true))).
Proof. apply X8_denial_names_the_first_failing_check. vm_compute. reflexivity. Defined.

Lemma X9_witness :
  validateDownloadRequest Samples.strictConfig MoreSamples.zipByCurlFromMirror
    = Deny reasonUserAgent ∧
  (validateDownloadRequest (withDomains MoreSamples.moreDomains Samples.strictConfig)
     MoreSamples.zipByCurlFromMirror
   = validateDownloadRequest Samples.strictConfig MoreSamples.zipByCurlFromMirror ∨
   validateDownloadRequest (withDomains MoreSamples.moreDomains Samples.strictConfig)
     MoreSamples.zipByCurlFromMirror = Allow).
Proof.
  split; [vm_compute; reflexivity|].
  apply X9_wider_allowlist_only_allows_more.
  apply (bool_decide_unpack _). vm_compute. exact I.
Defined.

Lemma X10_witness :
  validateDownloadRequest Samples.strictConfig MoreSamples.zipByCurlFromMirror
    = Deny reasonUserAgent ∧
  validateDownloadRequest MoreSamples.configWithEmptyDomain MoreSamples.zipByCurlFromMirror
    = Allow.
Proof.
  split; [vm_compute; reflexivity|].
  eapply (X10_empty_domain_allows_every_referrer MoreSamples.configWithEmptyDomain).
  - reflexivity.
  - reflexivity.
  - reflexivity.
  - apply (bool_decide_unpack _). vm_compute. exact I.
  - vm_compute. reflexivity.
Defined.

Lemma X11_witness :
  validateDownloadRequest Samples.strictConfig Samples.zipByBrowser = Challenge
    ↔ Legacy.validateDownloadRequest Samples.zipByBrowser = Challenge.
Proof.
  apply (X11_gate_with_all_checks_is_the_legacy_gate Samples.strictConfig
           Samples.zipByBrowser); vm_compute; reflexivity.
Defined.

End GateMore.

(** * Further properties of the address and of the cache *)

Module CacheMore.
Import JsString Express Hosting GateNotions HostingNotions.


(** *** The address of a visitor *)
Lemma includes_cons_false (c : ascii) (s p : string) :
  includes (String c s) p = false → includes s p = false.
Proof. simpl. by intros [_ ?]%orb_false_iff. Qed.

Lemma commaFree_cons (c : ascii) (s : string) :
  commaFree (String c s) ↔ c ≠ ","%char ∧ commaFree s.
Proof.
  unfold commaFree. cbn [includes startsWith].
  destruct (Ascii.eqb_spec "," c) as [<-|Hne]; cbn [orb].
  - split; [done | intros [? _]; congruence].
  - split; [intros H; split; [congruence | done] | by intros [_ ?]].
Qed.

Lemma commaFree_nil : commaFree "".
Proof. done. Qed.

Lemma beforeComma_commaFree (s : string) : commaFree (beforeComma s).
Proof.
  induction s as [|c s IH]; [done|]. cbn [beforeComma].
  destruct (Ascii.eqb_spec c ","); [done|]. by apply commaFree_cons.
Qed.

Lemma trimStart_commaFree (s : string) : commaFree s → commaFree (trimStart s).
Proof.
  induction s as [|c s IH]; [done|]. simpl. intros H.
  destruct (isSpace c); [|done]. apply IH. by apply commaFree_cons in H as [_ ?].
Qed.

Lemma trimEnd_commaFree (s : string) : commaFree s → commaFree (trimEnd s).
Proof.
  induction s as [|c s IH]; [done|]. intros [Hc Hs]%commaFree_cons. simpl.
  specialize (IH Hs). destruct (trimEnd s) as [|d t].
  - destruct (isSpace c); [done|]. by apply commaFree_cons.
  - by apply commaFree_cons.
Qed.

Lemma substrFrom_commaFree (n : nat) (s : string) : commaFree s → commaFree (substrFrom n s).
Proof.
  revert s. induction n as [|n IH]; intros [|c s]; simpl; try done.
  intros [_ H]%commaFree_cons. by apply IH.
Qed.

(** X12. [getRealIP] always returns one address: the result is never
    the empty string and holds no comma, whatever the proxy headers of
    the request are; of a forwarding chain only the first entry is
    kept. *)
Theorem X12_getRealIP_is_one_address (req : Request) :
  getRealIP req ≠ "" ∧ includes (getRealIP req) "," = false.
Proof.
  split; [apply CacheSpec.getRealIP_nonempty|].
  unfold getRealIP.
  set (ip0 := or_else (or_else (or_else _ _) _) _).
  assert (∀ o : option string,
            commaFree (or_empty o) →
            commaFree (or_empty (or_else
              (if truthy o && bool_decide (substrTo 7 (or_empty o) = "::ffff:")
               then Some (substrFrom 7 (or_empty o)) else o) (Some unknownIP)))) as Hstrip.
  { intros o Ho.
    destruct (truthy o && bool_decide _) eqn:E.
    - unfold or_else. destruct (truthy (Some (substrFrom 7 (or_empty o)))) eqn:Et; [|done].
      rewrite GateSpec.or_empty_Some. by apply substrFrom_commaFree.
    - unfold or_else. destruct (truthy o) eqn:Et; [|done]. by destruct o. }
  apply Hstrip.
  destruct (truthy ip0 && includes (or_empty ip0) ",") eqn:E.
  - rewrite GateSpec.or_empty_Some. apply trimEnd_commaFree, trimStart_commaFree,
      beforeComma_commaFree.
  - apply andb_false_iff in E as [E|E]; [|done].
    unfold or_empty, or_else. rewrite E. done.
Qed.

Lemma or_else_truthy (a b : option string) : truthy a = true → or_else a b = a.
Proof. intros H. unfold or_else. by rewrite H. Qed.

(** X13. The address is whatever the client writes in X-Forwarded-For:
    a non-empty value with no comma and without the prefix ::ffff: is
    returned as it is, ahead of X-Real-IP, [req.ip] and the address of
    the socket. *)
Theorem X13_forwarded_header_sets_the_address (req : Request) (a : string) :
  a ≠ "" →
  includes a "," = false →
  substrTo 7 a ≠ "::ffff:" →
  getRealIP (withHeaders (<["x-forwarded-for" := a]> (headers req)) req) = a.
Proof.
  intros Hne Hcomma Hpre. unfold getRealIP, withHeaders.
  cbn [headers ip remoteAddress].
  rewrite lookup_insert_eq.
  rewrite !(or_else_truthy (Some a)) by (by apply GateSpec.truthy_Some).
  rewrite GateSpec.or_empty_Some, Hcomma, andb_false_r. cbv iota.
  rewrite GateSpec.or_empty_Some, bool_decide_eq_false_2, andb_false_r by done. cbv iota.
  rewrite (or_else_truthy (Some a)) by (by apply GateSpec.truthy_Some).
  apply GateSpec.or_empty_Some.
Qed.

(** *** The cache of answers *)

(** X14. Asking twice gives the same answer: a second call of
    [getIPInfo] for an address, right after the first, returns what the
    first returned, asks ipinfo.io nothing and leaves the stored
    answers as they are, also when the first answer was a failure. *)
Theorem X14_answers_are_stable (c : Cache) (ip : string) (now now' : Z)
    (answer answer' : option IpInfo) :
  value (getIPInfo (cache (getIPInfo c ip now answer)) ip now' answer')
    = value (getIPInfo c ip now answer) ∧
  calls (getIPInfo (cache (getIPInfo c ip now answer)) ip now' answer') = [] ∧
  ipInfoCache (cache (getIPInfo (cache (getIPInfo c ip now answer)) ip now' answer'))
    = ipInfoCache (cache (getIPInfo c ip now answer)).
Proof.
  assert (ipInfoCache (cache (getIPInfo c ip now answer)) !! ip
          = Some (value (getIPInfo c ip now answer))) as Hstored.
  { destruct (ipInfoCache c !! ip) as [g|] eqn:E.
    - by destruct (CacheSpec.getIPInfo_hit c ip now answer g E) as [-> _].
    - rewrite (CacheSpec.getIPInfo_miss _ _ _ _ E). simpl. apply lookup_insert_eq. }
  by destruct (CacheSpec.getIPInfo_hit _ ip now' answer' _ Hstored) as [-> _].
Qed.

Lemma mapSet_keeps_others (k k' : string) (v v' : Z) (m : list (string * Z)) :
  k' ≠ k → (k', v') ∈ m → (k', v') ∈ mapSet k v m.
Proof.
  intros Hne. induction m as [|[k0 v0] m IH]; [by intros ?%elem_of_nil|].
  cbn [mapSet fst]. intros [[= <- <-]|Hin]%elem_of_cons.
  - rewrite bool_decide_eq_false_2 by done. apply list_elem_of_here.
  - case_bool_decide; [by right | right; by apply IH].
Qed.

Lemma mapSet_own_time (k : string) (v t : Z) (m : list (string * Z)) :
  NoDup m.*1 → (k, t) ∈ mapSet k v m → t = v.
Proof.
  induction m as [|[k0 v0] m IH]; cbn [mapSet fst].
  - intros _ [[= ->]|[]%elem_of_nil]%elem_of_cons. done.
  - rewrite fmap_cons. intros [Hk0 Hnd]%NoDup_cons. cbn [fst] in Hk0.
    case_bool_decide as E.
    + subst k0. intros [[= ->]|Hin]%elem_of_cons; [done|].
      destruct Hk0. by apply (list_elem_of_fmap_2 fst _ (k, t)).
    + intros [[= -> ->]|Hin]%elem_of_cons; [done | by apply IH].
Qed.

(** X16. A call of [getIPInfo] itself does refresh an address: if the
    maps hold an address and at least one other, all with times before
    now, then after a call for that address the next call for a new
    address does not evict it, even when the cache is full. *)
Theorem X16_refreshed_address_survives_the_next_miss (c : Cache) (ip other newIp : string)
    (now now' : Z) (answer answer' : option IpInfo) (stored : GeoEntry) :
  NoDup (timeKeys c) →
  ipInfoCache c !! ip = Some stored →
  other ≠ ip → other ∈ timeKeys c →
  Forall (λ e, e.2 < now) (ipAccessTimes c) →
  newIp ≠ ip →
  ipInfoCache (cache (getIPInfo (cache (getIPInfo c ip now answer)) newIp now' answer'))
    !! ip = Some stored.
Proof.
  intros Hnd Hstored Hother Hin Hold Hnew. rewrite Forall_forall in Hold.
  destruct (CacheSpec.getIPInfo_hit c ip now answer stored Hstored) as [-> _].
  cbn [cache].
  set (c1 := {| ipInfoCache := ipInfoCache c;
                ipAccessTimes := mapSet ip now (ipAccessTimes c) |}).
  destruct (ipInfoCache c1 !! newIp) as [g|] eqn:E.
  { by destruct (CacheSpec.getIPInfo_hit c1 newIp now' answer' g E) as [-> _]. }
  rewrite (CacheSpec.getIPInfo_miss _ _ _ _ E). cbn [cache ipInfoCache].
  rewrite lookup_insert_ne by done.
  unfold evictOldest. case_match; [|done].
  apply list_elem_of_fmap in Hin as ([k0 t0] & -> & Hin0). cbn [fst] in Hother.
  assert (ipAccessTimes c1 ≠ []) as Hnil.
  { intros Hnil. pose proof (mapSet_keeps_others ip k0 now t0 _ Hother Hin0) as Hm.
    subst c1. cbn [ipAccessTimes] in Hnil. rewrite Hnil in Hm. by apply elem_of_nil in Hm. }
  destruct (CacheSpec.oldestScan_min _ Hnil) as (k & t & -> & Hk & Hmin).
  cbn [fst]. case_match; [|done]. cbn [ipInfoCache].
  rewrite lookup_delete_ne; [done|].
  intros ->. subst c1. cbn [ipAccessTimes] in *.
  pose proof (mapSet_own_time _ _ _ _ Hnd Hk) as ->.
  pose proof (Hmin _ (mapSet_keeps_others ip k0 now t0 _ Hother Hin0)) as Hle.
  pose proof (Hold _ Hin0) as Hlt. cbn [snd] in *. lia.
Qed.

(** *** Times in ascending order *)
Lemma sorted_snoc (l : list Z) (x : Z) :
  StronglySorted Z.le l → Forall (λ y, y ≤ x) l → StronglySorted Z.le (l ++ [x]).
Proof.
  induction 1 as [|y l Hs IH Hy]; intros Hle.
  - repeat constructor.
  - apply Forall_cons in Hle as [Hyx Hle]. simpl. constructor; [by apply IH|].
    apply Forall_app. split; [done|]. by repeat constructor.
Qed.

Lemma sorted_mapDelete (k : string) (m : list (string * Z)) :
  StronglySorted Z.le m.*2 → StronglySorted Z.le (mapDelete k m).*2.
Proof.
  unfold mapDelete. induction m as [|[k0 t0] m IH]; [done|].
  rewrite fmap_cons. intros [Hs Hall]%StronglySorted_inv.
  rewrite filter_cons. cbn [fst]. destruct (decide (k0 ≠ k)); [|by apply IH].
  rewrite fmap_cons. constructor; [by apply IH|].
  cbn [snd] in *. rewrite Forall_forall in Hall |- *.
  intros t (e & -> & [_ He]%list_elem_of_filter)%list_elem_of_fmap.
  apply Hall. by apply list_elem_of_fmap_2.
Qed.

Lemma bounded_mapDelete (k : string) (lo : Z) (m : list (string * Z)) :
  Forall (λ t, t ≤ lo) m.*2 → Forall (λ t, t ≤ lo) (mapDelete k m).*2.
Proof.
  rewrite !Forall_forall. intros H t (e & -> & [_ He]%list_elem_of_filter)%list_elem_of_fmap.
  apply H. by apply list_elem_of_fmap_2.
Qed.

Lemma evictOldest_sorted (c : Cache) (lo : Z) :
  StronglySorted Z.le (ipAccessTimes c).*2 → Forall (λ t, t ≤ lo) (ipAccessTimes c).*2 →
  StronglySorted Z.le (ipAccessTimes (evictOldest c)).*2 ∧
  Forall (λ t, t ≤ lo) (ipAccessTimes (evictOldest c)).*2.
Proof.
  intros Hs Hb. unfold evictOldest. repeat case_match; try done.
  cbn [ipAccessTimes]. split; [by apply sorted_mapDelete | by apply bounded_mapDelete].
Qed.

(** *** Instances *)

Lemma X13_witness :
  getRealIP (withHeaders (<["x-forwarded-for" := "203.0.113.9"]> (headers Samples.pageByCurl))
               Samples.pageByCurl) = "203.0.113.9".
Proof.
  apply X13_forwarded_header_sets_the_address.
  - vm_compute. discriminate.
  - vm_compute. reflexivity.
  - vm_compute. discriminate.
Defined.

Lemma X16_witness :
  ipInfoCache
    (cache (getIPInfo (cache (getIPInfo Samples.fullCache (Samples.address 1) 101 None))
              (Samples.address 101) 102 (Some Samples.someInfo)))
    !! Samples.address 1 = Some None.
Proof.
  apply (X16_refreshed_address_survives_the_next_miss Samples.fullCache (Samples.address 1)
           (Samples.address 2)).
  - apply (bool_decide_unpack _). vm_compute. exact I.
  - vm_compute. reflexivity.
  - vm_compute. discriminate.
  - apply (bool_decide_unpack _). vm_compute. exact I.
  - apply (bool_decide_unpack _). vm_compute. exact I.
  - vm_compute. discriminate.
Defined.

End CacheMore.

(** * Requests that overlap *)

Module OverlapSpec.
Import JsString Express Hosting HostingNotions Concurrent.

(** *** The two pieces of a call *)

(** A call of [getIPInfo] with nothing in between is its two pieces,
    one after the other. *)
Lemma getIPInfo_phases (c : Cache) (ip : string) (now : Z) (answer : option IpInfo) :
  getIPInfo c ip now answer =
    match getIPInfoBegin c ip now with
    | (Some v, c') => {| value := v; cache := c'; calls := [] |}
    | (None, c') =>
        {| value := answer; cache := getIPInfoEnd c' ip now answer; calls := [ip] |}
    end.
Proof. unfold getIPInfo, getIPInfoBegin. by case_bool_decide. Qed.

Lemma arrive_hit (s : Server) (req : Request) (now : Z) :
  is_Some (ipInfoCache (maps s) !! getRealIP req) → arrive s req now = s.
Proof. intros H. unfold arrive. by rewrite bool_decide_eq_true_2. Qed.

(** In the middleware the hit branch of [getIPInfo] is never taken:
    the middleware has just found the address missing. *)
Lemma arrive_miss (s : Server) (req : Request) (now : Z) :
  ipInfoCache (maps s) !! getRealIP req = None →
  arrive s req now =
    {| maps := evictOldest (maps s);
       inFlight := inFlight s ++ [getRealIP req];
       asked := asked s ++ [getRealIP req] |}.
Proof.
  intros H. unfold arrive, getIPInfoBegin.
  rewrite !bool_decide_eq_false_2; [done|..]; rewrite H; by intros [? ?].
Qed.

Lemma settle_in (s : Server) (ip : string) (now : Z) (answer : option IpInfo) :
  ip ∈ inFlight s →
  settle s ip now answer =
    {| maps := getIPInfoEnd (maps s) ip now answer;
       inFlight := removeFirst ip (inFlight s);
       asked := asked s |}.
Proof. intros H. unfold settle. by rewrite bool_decide_eq_true_2. Qed.

Lemma settle_out (s : Server) (ip : string) (now : Z) (answer : option IpInfo) :
  ip ∉ inFlight s → settle s ip now answer = s.
Proof. intros H. unfold settle. by rewrite bool_decide_eq_false_2. Qed.

Lemma run_app (l1 l2 : list Event) (s : Server) : run (l1 ++ l2) s = run l2 (run l1 s).
Proof. unfold run. by rewrite fold_left_app. Qed.

(** Requests served one at a time are the runs of [Hosting.enrich]. *)
Lemma run_serial (vs : list Visit) (s : Server) :
  inFlight s = [] →
  maps (run (serial vs) s) = runVisits vs (maps s) ∧
  inFlight (run (serial vs) s) = [] ∧
  asked (run (serial vs) s) = (visitsLog vs (maps s, asked s)).2.
Proof.
  revert s. induction vs as [|v vs IH]; intros s Hs; [done|].
  unfold serial. rewrite bind_cons. fold (serial vs). rewrite run_app.
  cbn [run fold_left step runVisits visitsLog fst snd]. fold (run (serial vs)).
  fold (runVisits vs). fold (visitsLog vs).
  unfold enrich, visitor.
  destruct (ipInfoCache (maps s) !! getRealIP (visitReq v)) as [g|] eqn:E.
  - rewrite arrive_hit by eauto. rewrite settle_out by (rewrite Hs; apply not_elem_of_nil).
    rewrite bool_decide_eq_true_2 by eauto. cbn [cache calls]. rewrite app_nil_r.
    by apply IH.
  - rewrite (arrive_miss _ _ _ E), Hs. rewrite settle_in by (cbn; apply list_elem_of_here).
    rewrite bool_decide_eq_false_2 by (by intros [? ?]).
    rewrite (CacheSpec.getIPInfo_miss _ _ _ _ E). cbn [cache calls maps inFlight asked app removeFirst].
    rewrite bool_decide_eq_true_2 by done.
    destruct (IH {| maps := getIPInfoEnd (evictOldest (maps s)) (getRealIP (visitReq v))
                              (visitTime v) (visitAnswer v);
                    inFlight := []; asked := asked s ++ [getRealIP (visitReq v)] |} eq_refl)
      as (H1 & H2 & H3).
    done.
Qed.

(** *** What every run keeps *)

Lemma mapSet_keys_elem (x k : string) (v : Z) (m : list (string * Z)) :
  x ∈ (mapSet k v m).*1 ↔ x = k ∨ x ∈ m.*1.
Proof.
  rewrite <- !(elem_of_list_to_set (C := gset string)), CacheSpec.keys_mapSet,
    elem_of_union, elem_of_singleton. done.
Qed.

Lemma mapSet_keys_nodup (k : string) (v : Z) (m : list (string * Z)) :
  NoDup m.*1 → NoDup (mapSet k v m).*1.
Proof.
  intros Hnd. destruct (decide (k ∈ m.*1)) as [Hin|Hnin].
  - by rewrite (CacheSpec.mapSet_present _ _ _ Hin).
  - rewrite (CacheSpec.mapSet_fresh _ _ _ Hnin), fmap_app. apply NoDup_app.
    split; [done|]. split; [|apply NoDup_singleton].
    by intros x Hx ->%list_elem_of_singleton.
Qed.

Lemma evictOldest_keys (c : Cache) (x : string) :
  x ∈ timeKeys (evictOldest c) → x ∈ timeKeys c.
Proof.
  unfold evictOldest, timeKeys. repeat case_match; try done.
  cbn [ipAccessTimes]. rewrite CacheSpec.mapDelete_keys, list_elem_of_filter. by intros [_ ?].
Qed.

Lemma evictOldest_keys_nodup (c : Cache) :
  NoDup (timeKeys c) → NoDup (timeKeys (evictOldest c)).
Proof.
  unfold evictOldest, timeKeys. repeat case_match; try done.
  cbn [ipAccessTimes]. rewrite CacheSpec.mapDelete_keys. apply NoDup_filter.
Qed.

Lemma consistent_getIPInfoEnd (c : Cache) (ip : string) (now : Z) (answer : option IpInfo) :
  consistent c → consistent (getIPInfoEnd c ip now answer).
Proof.
  unfold consistent, timeKeys. intros H. cbn [getIPInfoEnd ipInfoCache ipAccessTimes].
  by rewrite dom_insert_L, CacheSpec.keys_mapSet, H.
Qed.

Lemma elem_of_removeFirst (x ip : string) (l : list string) :
  x ∈ removeFirst ip l → x ∈ l.
Proof.
  induction l as [|a l IH]; [done|]. cbn [removeFirst].
  case_bool_decide; [by right|].
  intros [->|?]%elem_of_cons; [apply list_elem_of_here | right; by apply IH].
Qed.

Lemma length_removeFirst (ip : string) (l : list string) :
  ip ∈ l → S (length (removeFirst ip l)) = length l.
Proof.
  induction l as [|a l IH]; [by intros ?%elem_of_nil|]. cbn [removeFirst].
  case_bool_decide as E; [done|].
  intros [->|Hin]%elem_of_cons; [done|]. cbn [length]. by rewrite IH.
Qed.

Lemma step_inv (s : Server) (e : Event) : serverInv s → serverInv (step s e).
Proof.
  intros [Hc Hnd Hne Hfl]. destruct e as [req now|ip now answer]; cbn [step].
  - destruct (ipInfoCache (maps s) !! getRealIP req) as [g|] eqn:E.
    + rewrite arrive_hit by eauto. by split.
    + rewrite (arrive_miss _ _ _ E). split; cbn [maps inFlight].
      * by apply CacheSpec.consistent_evictOldest.
      * by apply evictOldest_keys_nodup.
      * by intros ?%evictOldest_keys.
      * intros [?|Hin%list_elem_of_singleton]%elem_of_app; [done|].
        by apply (CacheSpec.getRealIP_nonempty req).
  - destruct (decide (ip ∈ inFlight s)) as [Hin|Hnin].
    + rewrite (settle_in _ _ _ _ Hin). split; cbn [maps inFlight].
      * by apply consistent_getIPInfoEnd.
      * unfold timeKeys. cbn [getIPInfoEnd ipAccessTimes]. by apply mapSet_keys_nodup.
      * unfold timeKeys. cbn [getIPInfoEnd ipAccessTimes].
        intros [<-|?]%mapSet_keys_elem; done.
      * by intros ?%elem_of_removeFirst.
    + rewrite (settle_out _ _ _ _ Hnin). by split.
Qed.

Lemma serverInv_idle : serverInv idle.
Proof.
  split; cbn [idle maps inFlight].
  - apply CacheSpec.consistent_empty.
  - apply NoDup_nil_2.
  - apply not_elem_of_nil.
  - apply not_elem_of_nil.
Qed.

Lemma run_inv (evs : list Event) (s : Server) : serverInv s → serverInv (run evs s).
Proof.
  revert s. induction evs as [|e evs IH]; intros s H; [done|].
  cbn [run fold_left]. apply IH. by apply step_inv.
Qed.

(** X23. However requests and answers interleave, the value map and
    the access-time map hold the same addresses at every moment, each
    of them once, and never the empty string. *)
Theorem X23_maps_agree_in_every_run (evs : list Event) :
  consistent (maps (run evs idle)) ∧
  NoDup (timeKeys (maps (run evs idle))) ∧
  ("" ∉ timeKeys (maps (run evs idle))) ∧
  length (ipAccessTimes (maps (run evs idle))) = size (ipInfoCache (maps (run evs idle))).
Proof.
  destruct (run_inv evs idle serverInv_idle) as [Hc Hnd Hne _].
  repeat split; try done. symmetry. by apply CacheSpec.size_keys.
Qed.

(** *** How far the cache can grow *)

(** On a cache that is full the eviction block removes one address. *)
Lemma evictOldest_shrinks (c : Cache) :
  consistent c → NoDup (timeKeys c) → "" ∉ timeKeys c →
  (MAX_CACHE_SIZE ≤ size (ipInfoCache c))%nat →
  S (size (ipInfoCache (evictOldest c))) = size (ipInfoCache c).
Proof.
  intros Hc Hnd Hne Hfull.
  assert (ipAccessTimes c ≠ []) as Hnil.
  { intros Hnil. rewrite (CacheSpec.size_keys _ Hc Hnd), Hnil in Hfull.
    unfold MAX_CACHE_SIZE in Hfull. simpl in Hfull. lia. }
  destruct (CacheSpec.oldestScan_min _ Hnil) as (victim & tv & Hscan & Hin & _).
  assert (victim ∈ timeKeys c) as Hk by (by apply (list_elem_of_fmap_2 fst _ (victim, tv))).
  unfold evictOldest.
  destruct (Nat.leb_spec MAX_CACHE_SIZE (size (ipInfoCache c))); [|lia].
  rewrite Hscan. cbn [fst].
  destruct victim as [|a victim]; [done|]. cbn [nonempty ipInfoCache].
  rewrite map_size_delete_Some by (by apply (CacheSpec.consistent_lookup _ _ Hc)).
  unfold MAX_CACHE_SIZE in *. lia.
Qed.

Lemma bounded_run (k : nat) (evs : list Event) (s : Server) :
  (1 ≤ k)%nat →
  serverInv s →
  (size (ipInfoCache (maps s)) + length (inFlight s) ≤ MAX_CACHE_SIZE - 1 + k)%nat →
  inFlightAtMost k evs s = true →
  (size (ipInfoCache (maps (run evs s))) + length (inFlight (run evs s))
   ≤ MAX_CACHE_SIZE - 1 + k)%nat.
Proof.
  intros Hk. revert s. induction evs as [|e evs IH]; intros s Hinv Hsz Hfl; [done|].
  cbn [inFlightAtMost] in Hfl. apply andb_true_iff in Hfl as [_ Hfl].
  cbn [run fold_left]. apply IH; [by apply step_inv| |done].
  assert (length (inFlight (step s e)) ≤ k)%nat as Hlen.
  { destruct evs; cbn [inFlightAtMost] in Hfl;
      apply andb_true_iff in Hfl as [Hfl _]; by apply bool_decide_eq_true in Hfl. }
  clear IH Hfl. destruct Hinv as [Hc Hnd Hne _].
  destruct e as [req now|ip now answer]; cbn [step] in *.
  - destruct (ipInfoCache (maps s) !! getRealIP req) as [g|] eqn:E.
    + by rewrite arrive_hit by eauto.
    + rewrite (arrive_miss _ _ _ E) in *. cbn [maps inFlight] in *.
      rewrite length_app in *. cbn [length] in *.
      destruct (Nat.lt_ge_cases (size (ipInfoCache (maps s))) MAX_CACHE_SIZE) as [Hlt|Hge].
      * rewrite (CacheSpec.evictOldest_below _ Hlt). unfold MAX_CACHE_SIZE in *. lia.
      * pose proof (evictOldest_shrinks _ Hc Hnd Hne Hge). lia.
  - destruct (decide (ip ∈ inFlight s)) as [Hin|Hnin].
    + rewrite (settle_in _ _ _ _ Hin) in *. cbn [maps inFlight getIPInfoEnd ipInfoCache] in *.
      pose proof (length_removeFirst _ _ Hin).
      rewrite map_size_insert. destruct (ipInfoCache (maps s) !! ip); cbn [id]; lia.
    + by rewrite (settle_out _ _ _ _ Hnin).
Qed.

(** X22. The cache exceeds its bound by no more than the lookups that
    overlap: in a run where at most [k] calls of [getIPInfo] are
    suspended at any moment ([k] at least 1), the addresses in the
    cache and the suspended calls are together at most
    MAX_CACHE_SIZE - 1 + [k]. For [k] = 1, calls that never
    overlap, this is the bound MAX_CACHE_SIZE. *)
Theorem X22_cache_bound_with_lookups_in_flight (k : nat) (evs : list Event) :
  (1 ≤ k)%nat →
  inFlightAtMost k evs idle = true →
  (size (ipInfoCache (maps (run evs idle))) + length (inFlight (run evs idle))
   ≤ MAX_CACHE_SIZE - 1 + k)%nat.
Proof.
  intros Hk Hfl. apply bounded_run; try done.
  - apply serverInv_idle.
  - cbn. rewrite map_size_empty. lia.
Qed.

(** *** Runs in which no address has two lookups at once *)

Lemma quiet_app (l1 l2 : list Event) (s : Server) :
  quiet (l1 ++ l2) s = quiet l1 s && quiet l2 (run l1 s).
Proof.
  revert s. induction l1 as [|e l1 IH]; intros s; [done|].
  cbn [app quiet run fold_left]. fold (run l1). by rewrite IH, andb_assoc.
Qed.

Lemma NoDup_removeFirst (ip : string) (l : list string) :
  NoDup l → NoDup (removeFirst ip l) ∧ ip ∉ removeFirst ip l.
Proof.
  induction 1 as [|a l Ha Hnd IH]; [split; [constructor | apply not_elem_of_nil]|].
  cbn [removeFirst]. case_bool_decide as E.
  - subst a. by split.
  - destruct IH as [IH1 IH2]. split.
    + constructor; [|done]. by intros ?%elem_of_removeFirst.
    + by intros [?|?]%elem_of_cons.
Qed.

Lemma removeFirst_keeps (x ip : string) (l : list string) :
  x ≠ ip → x ∈ l → x ∈ removeFirst ip l.
Proof.
  intros Hne. induction l as [|a l IH]; [done|]. cbn [removeFirst].
  intros [->|Hin]%elem_of_cons.
  - rewrite bool_decide_eq_false_2 by done. apply list_elem_of_here.
  - case_bool_decide; [done|]. right. by apply IH.
Qed.

Lemma quiet_cons (e : Event) (evs : list Event) (s : Server) :
  quiet (e :: evs) s = true ↔ calm s e ∧ quiet evs (step s e) = true.
Proof.
  cbn [quiet]. rewrite andb_true_iff. destruct e; cbn [calm].
  - by rewrite bool_decide_eq_true.
  - split; [by intros [_ ?] | by intros [_ ?]].
Qed.

Lemma step_quietInv (s : Server) (e : Event) :
  quietInv s → calm s e → quietInv (step s e).
Proof.
  intros [Hinv Hnd Habs] Hcalm.
  split; [by apply step_inv|..]; destruct e as [req now|ip now answer]; cbn [step calm] in *.
  - destruct (ipInfoCache (maps s) !! getRealIP req) as [g|] eqn:E.
    + by rewrite arrive_hit by eauto.
    + rewrite (arrive_miss _ _ _ E). cbn [inFlight]. apply NoDup_app.
      split; [done|]. split; [|apply NoDup_singleton].
      by intros x Hx ->%list_elem_of_singleton.
  - destruct (decide (ip ∈ inFlight s)) as [Hin|Hnin].
    + rewrite (settle_in _ _ _ _ Hin). cbn [inFlight]. by apply NoDup_removeFirst.
    + by rewrite (settle_out _ _ _ _ Hnin).
  - destruct (ipInfoCache (maps s) !! getRealIP req) as [g|] eqn:E.
    + by rewrite arrive_hit by eauto.
    + rewrite (arrive_miss _ _ _ E). cbn [inFlight maps].
      intros a [Ha| ->%list_elem_of_singleton]%elem_of_app;
        apply CacheSpec.evictOldest_lookup_None; [by apply Habs | done].
  - destruct (decide (ip ∈ inFlight s)) as [Hin|Hnin].
    + rewrite (settle_in _ _ _ _ Hin). cbn [inFlight maps getIPInfoEnd ipInfoCache].
      intros a Ha. destruct (NoDup_removeFirst ip _ Hnd) as [_ Hgone].
      rewrite lookup_insert_ne by (by intros ->).
      by apply Habs, (elem_of_removeFirst _ ip).
    + by rewrite (settle_out _ _ _ _ Hnin).
Qed.

Lemma quietInv_idle : quietInv idle.
Proof.
  split; [apply serverInv_idle | apply NoDup_nil_2 | by intros a ?%elem_of_nil].
Qed.

Lemma run_quietInv (evs : list Event) (s : Server) :
  quietInv s → quiet evs s = true → quietInv (run evs s).
Proof.
  revert s. induction evs as [|e evs IH]; intros s Hinv Hq; [done|].
  apply quiet_cons in Hq as [Hcalm Hq].
  cbn [run fold_left]. apply IH; [by apply step_quietInv | done].
Qed.

(** X15. A stored answer is never overwritten as long as no address
    has two lookups at once: in a run where no request arrives from
    an address whose lookup is still suspended, one more event (a
    request or an answer of ipinfo.io) leaves each address that had
    an answer with the same answer or evicts it, and below the
    capacity it leaves it with the same answer. *)
Theorem X15_cached_answers_are_never_replaced (evs : list Event) (e : Event)
    (k : string) (stored : GeoEntry) :
  quiet (evs ++ [e]) idle = true →
  ipInfoCache (maps (run evs idle)) !! k = Some stored →
  (ipInfoCache (maps (run (evs ++ [e]) idle)) !! k = Some stored ∨
   ipInfoCache (maps (run (evs ++ [e]) idle)) !! k = None) ∧
  ((size (ipInfoCache (maps (run evs idle))) < MAX_CACHE_SIZE)%nat →
   ipInfoCache (maps (run (evs ++ [e]) idle)) !! k = Some stored).
Proof.
  rewrite quiet_app, run_app. intros [Hq He]%andb_true_iff Hk.
  apply quiet_cons in He as [Hcalm _].
  destruct (run_quietInv evs idle quietInv_idle Hq) as [_ _ Habs].
  set (s := run evs idle) in *. cbn [run fold_left].
  destruct e as [req now|ip now answer]; cbn [step calm] in *.
  - destruct (ipInfoCache (maps s) !! getRealIP req) as [g|] eqn:E.
    + rewrite arrive_hit by eauto. by split; [left|].
    + rewrite (arrive_miss _ _ _ E). cbn [maps]. split.
      * unfold evictOldest.
        destruct (MAX_CACHE_SIZE <=? size (ipInfoCache (maps s)))%nat; [|by left].
        destruct (oldestScan (ipAccessTimes (maps s))).1 as [oldestIp|]; [|by left].
        destruct (nonempty oldestIp); [|by left]. cbn [ipInfoCache].
        destruct (decide (k = oldestIp)) as [->|Hks].
        -- right. apply lookup_delete_eq.
        -- left. by rewrite lookup_delete_ne.
      * intros Hlt. by rewrite (CacheSpec.evictOldest_below _ Hlt).
  - destruct (decide (ip ∈ inFlight s)) as [Hin|Hnin].
    + rewrite (settle_in _ _ _ _ Hin). cbn [maps getIPInfoEnd ipInfoCache].
      assert (k ≠ ip) as Hne by (intros ->; rewrite (Habs _ Hin) in Hk; done).
      rewrite lookup_insert_ne by done. by split; [left|].
    + rewrite (settle_out _ _ _ _ Hnin). by split; [left|].
Qed.

(** *** The order of eviction *)

Lemma step_sorted (s : Server) (e : Event) (lo : Z) :
  quietInv s → calm s e →
  StronglySorted Z.le (ipAccessTimes (maps s)).*2 →
  Forall (λ t, t ≤ lo) (ipAccessTimes (maps s)).*2 →
  lo ≤ eventTime e →
  StronglySorted Z.le (ipAccessTimes (maps (step s e))).*2 ∧
  Forall (λ t, t ≤ eventTime e) (ipAccessTimes (maps (step s e))).*2.
Proof.
  intros [[Hc _ _ _] _ Habs] Hcalm Hs Hb Hlo.
  assert (Forall (λ t, t ≤ eventTime e) (ipAccessTimes (maps s)).*2) as Hb'.
  { eapply Forall_impl; [exact Hb|]. simpl. lia. }
  destruct e as [req now|ip now answer]; cbn [step calm eventTime] in *.
  - destruct (ipInfoCache (maps s) !! getRealIP req) as [g|] eqn:E.
    + by rewrite arrive_hit by eauto.
    + rewrite (arrive_miss _ _ _ E). cbn [maps]. by apply CacheMore.evictOldest_sorted.
  - destruct (decide (ip ∈ inFlight s)) as [Hin|Hnin].
    + rewrite (settle_in _ _ _ _ Hin). cbn [maps getIPInfoEnd ipAccessTimes].
      assert (ip ∉ (ipAccessTimes (maps s)).*1) as Hfresh.
      { intros Hk%(CacheSpec.consistent_lookup _ _ Hc). rewrite (Habs _ Hin) in Hk. by destruct Hk. }
      rewrite (CacheSpec.mapSet_fresh _ _ _ Hfresh), fmap_app. split.
      * by apply CacheMore.sorted_snoc.
      * apply Forall_app. split; [done|]. by repeat constructor.
    + by rewrite (settle_out _ _ _ _ Hnin).
Qed.

Lemma run_sorted (evs : list Event) (s : Server) (lo : Z) :
  quietInv s → quiet evs s = true →
  StronglySorted Z.le (ipAccessTimes (maps s)).*2 →
  Forall (λ t, t ≤ lo) (ipAccessTimes (maps s)).*2 →
  StronglySorted Z.le (lo :: (eventTime <$> evs)) →
  StronglySorted Z.le (ipAccessTimes (maps (run evs s))).*2.
Proof.
  revert s lo. induction evs as [|e evs IH]; intros s lo Hinv Hq Hs Hb Hevs; [done|].
  apply quiet_cons in Hq as [Hcalm Hq]. rewrite fmap_cons in Hevs.
  apply StronglySorted_inv in Hevs as [Hevs Hlo]. apply Forall_cons in Hlo as [Hlo _].
  destruct (step_sorted s e lo Hinv Hcalm Hs Hb Hlo) as [Hs' Hb'].
  cbn [run fold_left]. apply (IH _ (eventTime e)); try done. by apply step_quietInv.
Qed.

(** X17. The cache is first in, first out as long as no address has
    two lookups at once: in a run where no request arrives from an
    address whose lookup is still suspended and the clock never goes
    back, the times in [ipAccessTimes] are in ascending order, so the
    address the scan picks for eviction is the first of the map, the
    one that entered the cache first, however often it was seen
    since. *)
Theorem X17_eviction_is_first_in_first_out (evs : list Event) :
  quiet evs idle = true →
  Sorted Z.le (eventTime <$> evs) →
  StronglySorted Z.le (ipAccessTimes (maps (run evs idle))).*2 ∧
  ∀ k t rest,
    ipAccessTimes (maps (run evs idle)) = (k, t) :: rest →
    (oldestScan (ipAccessTimes (maps (run evs idle)))).1 = Some k.
Proof.
  intros Hq Hevs%Sorted_StronglySorted; [|intros ???; lia].
  assert (StronglySorted Z.le (ipAccessTimes (maps (run evs idle))).*2) as Hs.
  { destruct evs as [|e evs]; [constructor|].
    apply (run_sorted _ _ (eventTime e) quietInv_idle Hq); [constructor | constructor |].
    rewrite fmap_cons in *. constructor; [done|].
    apply Forall_cons. split; [lia|]. by apply StronglySorted_inv in Hevs as [_ ?]. }
  split; [done|].
  intros k t rest Heq. rewrite Heq in *. rewrite CacheSpec.oldestScan_head; [done|].
  rewrite fmap_cons in Hs. apply StronglySorted_inv in Hs as [_ Hall].
  intros e He. rewrite Forall_forall in Hall. apply Hall. by apply list_elem_of_fmap_2.
Qed.

(** *** The requests to ipinfo.io *)

Lemma arrivals_snoc (evs : list Event) (e : Event) :
  arrivals (evs ++ [e]) =
    arrivals evs ++ match e with
                    | Arrive req _ => [getRealIP req]
                    | Settle _ _ _ => []
                    end.
Proof. unfold arrivals. rewrite omap_app. by destruct e. Qed.

Lemma set_removeFirst (ip : string) (l : list string) :
  NoDup l → ip ∈ l →
  {[ip]} ∪ list_to_set (removeFirst ip l) =@{gset string} list_to_set l.
Proof.
  intros Hnd Hin. apply set_eq. intros x.
  rewrite elem_of_union, elem_of_singleton, !elem_of_list_to_set. split.
  - intros [->|?%elem_of_removeFirst]; done.
  - intros Hx. destruct (decide (x = ip)) as [->|Hne]; [by left|].
    right. by apply removeFirst_keeps.
Qed.

(** X18. While no more than a hundred different addresses have been
    seen and no address has two lookups at once, ipinfo.io is asked
    once for each address and never twice: in a run where no request
    arrives from an address whose lookup is still suspended, the
    addresses asked about are those of the visitors, without
    repetition, and each of them has a stored answer or a lookup
    under way, never both. *)
Theorem X18_one_call_per_address_below_capacity (evs : list Event) :
  quiet evs idle = true →
  (size (list_to_set (arrivals evs) : gset string) ≤ MAX_CACHE_SIZE)%nat →
  NoDup (asked (run evs idle)) ∧
  (∀ a, a ∈ asked (run evs idle) ↔ a ∈ arrivals evs) ∧
  dom (ipInfoCache (maps (run evs idle))) ∪ list_to_set (inFlight (run evs idle))
    = list_to_set (arrivals evs) ∧
  dom (ipInfoCache (maps (run evs idle)))
    ## (list_to_set (inFlight (run evs idle)) : gset string).
Proof.
  induction evs as [|e evs IH] using rev_ind.
  - intros _ _. split; [constructor|]. split; [done|]. split.
    + cbn. by rewrite dom_empty_L, (left_id_L ∅ (∪)).
    + cbn. rewrite dom_empty_L. apply disjoint_empty_l.
  - rewrite quiet_app, run_app, arrivals_snoc, list_to_set_app_L.
    intros [Hq He]%andb_true_iff Hsize. apply quiet_cons in He as [Hcalm _].
    assert (size (list_to_set (arrivals evs) : gset string) ≤ MAX_CACHE_SIZE)%nat as Hs0.
    { etrans; [|exact Hsize]. apply subseteq_size, union_subseteq_l. }
    destruct (IH Hq Hs0) as (Hnd & Hlog & Hdom & Hdisj).
    destruct (run_quietInv evs idle quietInv_idle Hq) as [_ Hfnd Habs].
    set (s := run evs idle) in *. cbn [run fold_left].
    destruct e as [req now|ip now answer]; cbn [step calm] in *.
    + cbn [list_to_set] in *. rewrite (right_id_L ∅ (∪)) in *.
      destruct (ipInfoCache (maps s) !! getRealIP req) as [g|] eqn:E.
      * rewrite arrive_hit by eauto.
        assert (getRealIP req ∈ (list_to_set (arrivals evs) : gset string)) as Hold.
        { rewrite <- Hdom. apply elem_of_union. left. apply elem_of_dom. eauto. }
        split; [done|]. split; [|split; [|done]].
        -- intros a. rewrite Hlog, elem_of_app, list_elem_of_singleton.
           split; [by left|]. intros [?| ->]; [done|]. by apply elem_of_list_to_set in Hold.
        -- rewrite Hdom. apply set_eq. intros x. rewrite elem_of_union, elem_of_singleton.
           split; [by left|]. by intros [?| ->].
      * assert (getRealIP req ∉ (list_to_set (arrivals evs) : gset string)) as Hnew.
        { rewrite <- Hdom, elem_of_union, elem_of_list_to_set, elem_of_dom, E.
          intros [[? ?]|?]; done. }
        assert (size (ipInfoCache (maps s)) < MAX_CACHE_SIZE)%nat as Hlt.
        { rewrite size_union, size_singleton in Hsize
            by (intros x Hx ->%elem_of_singleton; done).
          assert (size (dom (ipInfoCache (maps s))) ≤ size (list_to_set (arrivals evs) : gset string))%nat
            as Hle by (apply subseteq_size; rewrite <- Hdom; apply union_subseteq_l).
          rewrite size_dom in Hle. lia. }
        rewrite (arrive_miss _ _ _ E), (CacheSpec.evictOldest_below _ Hlt). cbn [maps inFlight asked].
        split; [|split; [|split]].
        -- apply NoDup_app. split; [done|]. split; [|apply NoDup_singleton].
           intros x Hx ->%list_elem_of_singleton. apply Hnew, elem_of_list_to_set.
           by apply Hlog.
        -- intros a. rewrite !elem_of_app, Hlog. done.
        -- rewrite list_to_set_app_L. cbn [list_to_set]. rewrite (right_id_L ∅ (∪)).
           by rewrite (assoc_L (∪)), Hdom.
        -- rewrite list_to_set_app_L. cbn [list_to_set]. rewrite (right_id_L ∅ (∪)).
           apply disjoint_union_r. split; [done|].
           apply disjoint_singleton_r. rewrite elem_of_dom, E. by intros [? ?].
    + rewrite app_nil_r. cbn [list_to_set]. rewrite (right_id_L ∅ (∪)) in *.
      destruct (decide (ip ∈ inFlight s)) as [Hin|Hnin].
      * rewrite (settle_in _ _ _ _ Hin). cbn [maps inFlight asked getIPInfoEnd ipInfoCache].
        destruct (NoDup_removeFirst ip _ Hfnd) as [_ Hgone].
        split; [done|]. split; [done|]. split.
        -- rewrite dom_insert_L, (comm_L (∪) {[ip]}), <- (assoc_L (∪)),
             (set_removeFirst _ _ Hfnd Hin). done.
        -- rewrite dom_insert_L. apply disjoint_union_l. split.
           ++ apply disjoint_singleton_l. by rewrite elem_of_list_to_set.
           ++ intros x Hx Hx'. apply (Hdisj x Hx).
              apply elem_of_list_to_set. apply elem_of_list_to_set in Hx'.
              by apply (elem_of_removeFirst _ ip).
      * by rewrite (settle_out _ _ _ _ Hnin).
Qed.

(** *** Instances *)

Lemma X15_witness :
  (ipInfoCache
     (maps (run (MoreSamples.overlappingVisits ++ [Arrive (Samples.requestFrom 4) 8]) idle))
     !! Samples.address 2 = Some (Some Samples.someInfo) ∨
   ipInfoCache
     (maps (run (MoreSamples.overlappingVisits ++ [Arrive (Samples.requestFrom 4) 8]) idle))
     !! Samples.address 2 = None) ∧
  ((size (ipInfoCache (maps (run MoreSamples.overlappingVisits idle))) < MAX_CACHE_SIZE)%nat →
   ipInfoCache
     (maps (run (MoreSamples.overlappingVisits ++ [Arrive (Samples.requestFrom 4) 8]) idle))
     !! Samples.address 2 = Some (Some Samples.someInfo)).
Proof.
  apply X15_cached_answers_are_never_replaced.
  - vm_compute. reflexivity.
  - vm_compute. reflexivity.
Defined.

Lemma X17_witness :
  StronglySorted Z.le (ipAccessTimes (maps (run MoreSamples.overlappingVisits idle))).*2 ∧
  ∀ k t rest,
    ipAccessTimes (maps (run MoreSamples.overlappingVisits idle)) = (k, t) :: rest →
    (oldestScan (ipAccessTimes (maps (run MoreSamples.overlappingVisits idle)))).1 = Some k.
Proof.
  apply X17_eviction_is_first_in_first_out.
  - vm_compute. reflexivity.
  - apply (bool_decide_unpack _). vm_compute. exact I.
Defined.

Lemma X18_witness :
  NoDup (asked (run MoreSamples.overlappingVisits idle)) ∧
  (∀ a, a ∈ asked (run MoreSamples.overlappingVisits idle)
        ↔ a ∈ arrivals MoreSamples.overlappingVisits) ∧
  dom (ipInfoCache (maps (run MoreSamples.overlappingVisits idle)))
    ∪ list_to_set (inFlight (run MoreSamples.overlappingVisits idle))
    = list_to_set (arrivals MoreSamples.overlappingVisits) ∧
  dom (ipInfoCache (maps (run MoreSamples.overlappingVisits idle)))
    ## (list_to_set (inFlight (run MoreSamples.overlappingVisits idle)) : gset string).
Proof.
  apply X18_one_call_per_address_below_capacity.
  - vm_compute. reflexivity.
  - apply (bool_decide_unpack _). vm_compute. exact I.
Defined.

Lemma X22_witness :
  (size (ipInfoCache (maps (run MoreSamples.overlappingVisits idle)))
   + length (inFlight (run MoreSamples.overlappingVisits idle))
   ≤ MAX_CACHE_SIZE - 1 + 2)%nat.
Proof.
  apply X22_cache_bound_with_lookups_in_flight.
  - lia.
  - vm_compute. reflexivity.
Defined.

End OverlapSpec.

(** * Properties of the file name in the Content-Disposition header *)

Module FileNameSpec.
Import JsString FileName.
Lemma flatMap_app (f : ascii → string) (a b : string) :
  flatMap f (a +:+ b) = flatMap f a +:+ flatMap f b.
Proof.
  induction a as [|c a IH]; [done|].
  change (f c +:+ flatMap f (a +:+ b) = (f c +:+ flatMap f a) +:+ flatMap f b).
  rewrite IH. induction (f c) as [|d s IHs]; [done|].
  change (String d (s +:+ flatMap f a +:+ flatMap f b)
          = String d ((s +:+ flatMap f a) +:+ flatMap f b)).
  by rewrite IHs.
Qed.

Lemma append_assoc (a b c : string) : (a +:+ b) +:+ c = a +:+ b +:+ c.
Proof.
  induction a as [|d a IH]; [done|].
  change (String d ((a +:+ b) +:+ c) = String d (a +:+ b +:+ c)). by rewrite IH.
Qed.

Lemma byte_ascii (b : N) : (b < 256)%N → ∃ a, b = N_of_ascii a.
Proof. intros H. exists (ascii_of_N b). by rewrite N_ascii_embedding. Qed.

Lemma quotes_stars_pct (a : ascii) (s : string) :
  replaceStars (replaceQuotes (pct (N_of_ascii a) +:+ s))
  = pct (N_of_ascii a) +:+ replaceStars (replaceQuotes s).
Proof.
  unfold replaceStars, replaceQuotes. rewrite !flatMap_app. f_equal.
  destruct a as [[] [] [] [] [] [] [] []]; reflexivity.
Qed.

Lemma replaceAll_pct (a : ascii) (s : string) :
  replaceAll "%20" " " (pct (N_of_ascii a) +:+ s)
  = (if (N_of_ascii a =? 32)%N then " " else pct (N_of_ascii a)) +:+ replaceAll "%20" " " s.
Proof. destruct a as [[] [] [] [] [] [] [] []]; reflexivity. Qed.

Lemma finish_pct (b : N) (s : string) :
  (b < 256)%N →
  finish (pct b +:+ s) = (if (b =? 32)%N then " " else pct b) +:+ finish s.
Proof.
  intros [a ->]%byte_ascii. unfold finish. by rewrite quotes_stars_pct, replaceAll_pct.
Qed.

Lemma finish_pctAll (bs : list N) (s : string) :
  Forall (λ b, b < 256 ∧ b ≠ 32)%N bs →
  finish (pctAll bs +:+ s) = pctAll bs +:+ finish s.
Proof.
  induction 1 as [|b bs [Hb Hne] _ IH]; [done|].
  cbn [pctAll]. rewrite !append_assoc, finish_pct by done.
  rewrite IH. by destruct (N.eqb_spec b 32).
Qed.

Ltac div_lia := zify; Z.to_euclidean_division_equations; lia.

Lemma utf8_bytes (cp : N) :
  (cp < 2097152)%N → cp ≠ 32%N → Forall (λ b, b < 256 ∧ b ≠ 32)%N (utf8 cp).
Proof.
  intros Hlt Hne. unfold utf8.
  destruct (N.ltb_spec cp 128);
    [repeat (apply Forall_cons_2; [div_lia|]); apply Forall_nil_2|].
  destruct (N.ltb_spec cp 2048);
    [repeat (apply Forall_cons_2; [div_lia|]); apply Forall_nil_2|].
  destruct (N.ltb_spec cp 65536);
    repeat (apply Forall_cons_2; [div_lia|]); apply Forall_nil_2.
Qed.

Lemma finish_unreserved (a : ascii) (s : string) :
  isUnreserved (N_of_ascii a) = true →
  finish (String a s)
  = if isPlain (N_of_ascii a) then String a (finish s) else pct (N_of_ascii a) +:+ finish s.
Proof.
  destruct a as [[] [] [] [] [] [] [] []]; intros H; try (by vm_compute in H); reflexivity.
Qed.

Ltac cmp_cases :=
  repeat match goal with
         | H : context [N.leb ?a ?b] |- _ => destruct (N.leb_spec a b)
         | |- context [N.leb ?a ?b] => destruct (N.leb_spec a b)
         | H : context [N.eqb ?a ?b] |- _ => destruct (N.eqb_spec a b)
         | |- context [N.eqb ?a ?b] => destruct (N.eqb_spec a b)
         end;
  simpl in *; try done; try lia.

Lemma unreserved_byte (u : N) : isUnreserved u = true → (u < 128)%N.
Proof.
  unfold isUnreserved, isAlnum. intros [H|H%bool_decide_eq_true]%orb_true_iff.
  - cmp_cases.
  - unfold uriMark in H. set_unfold. lia.
Qed.

Lemma plain_unreserved (u : N) : isPlain u = true → isUnreserved u = true.
Proof.
  unfold isPlain, isUnreserved. intros [->|H%bool_decide_eq_true]%orb_true_iff; [done|].
  apply orb_true_iff. right. apply bool_decide_eq_true. unfold uriMark. set_unfold. lia.
Qed.

Lemma plain_facts (u : N) :
  isPlain u = true → (u < 128)%N ∧ u ≠ 32%N ∧ u ≠ 37%N ∧ isHigh u = false ∧ isLow u = false.
Proof.
  intros H. pose proof (unreserved_byte _ (plain_unreserved _ H)) as Hb.
  assert (u ≠ 32%N ∧ u ≠ 37%N) as [? ?] by (split; intros ->; by vm_compute in H).
  unfold isHigh, isLow. repeat split; try done; cmp_cases.
Qed.

Lemma codePoint_range (hi lo : N) :
  isHigh hi = true → isLow lo = true →
  (65536 ≤ codePoint hi lo < 2097152)%N.
Proof. unfold isHigh, isLow, codePoint. intros H1 H2. cmp_cases. Qed.

Lemma encodeFileName_direct_aux (n : nat) (name : list N) :
  (length name ≤ n)%nat →
  Forall (λ u, u < 65536)%N name →
  finish <$> encodeURIComponent name = encodeDirect name.
Proof.
  revert name. induction n as [|n IH]; intros [|u rest] Hlen Hunits; try done;
    [simpl in Hlen; lia|].
  apply Forall_cons in Hunits as [Hu Hrest]. simpl in Hlen.
  cbn [encodeURIComponent encodeDirect].
  destruct (isUnreserved u) eqn:Hun.
  - pose proof (unreserved_byte _ Hun) as Hb.
    assert (u = N_of_ascii (ascii_of_N u)) as Hua by (rewrite N_ascii_embedding; lia).
    assert (isHigh u = false ∧ isLow u = false) as [-> ->]
      by (unfold isHigh, isLow; split; cmp_cases).
    rewrite <- (IH rest) by (done || lia).
    destruct (encodeURIComponent rest) as [s|]; simpl.
    + rewrite Hua in Hun. rewrite (finish_unreserved _ _ Hun), <- Hua.
      destruct (isPlain u) eqn:Hp; [done|].
      assert (u ≠ 32%N) as Hne by (intros ->; by vm_compute in Hun).
      rewrite (proj2 (N.eqb_neq _ _) Hne). simpl.
      unfold utf8. destruct (N.ltb_spec u 128); [|lia]. simpl.
      by rewrite append_assoc.
    + destruct (isPlain u); [done|]. by destruct (u =? 32)%N.
  - assert (isPlain u = false) as ->.
    { destruct (isPlain u) eqn:Hp; [|done]. by rewrite (plain_unreserved _ Hp) in Hun. }
    destruct (N.eqb_spec u 32) as [->|Hne].
    + simpl. rewrite <- (IH rest) by (done || lia).
      destruct (encodeURIComponent rest) as [s|]; [|done]. simpl.
      by f_equal.
    + destruct (isHigh u) eqn:Hhi.
      * destruct rest as [|lo rest']; [done|].
        destruct (isLow lo) eqn:Hlo; [|done].
        apply Forall_cons in Hrest as [_ Hrest']. simpl in Hlen.
        rewrite <- (IH rest') by (done || lia).
        destruct (encodeURIComponent rest') as [s|]; [|done]. simpl.
        pose proof (codePoint_range _ _ Hhi Hlo).
        rewrite finish_pctAll; [done|]. apply utf8_bytes; lia.
      * destruct (isLow u); [done|].
        rewrite <- (IH rest) by (done || lia).
        destruct (encodeURIComponent rest) as [s|]; [|done]. simpl.
        rewrite finish_pctAll; [done|]. apply utf8_bytes; [lia | done].
Qed.

(** The four steps amount to one pass. *)
Lemma encodeFileName_direct (name : list N) :
  Forall (λ u, u < 65536)%N name → encodeFileName name = encodeDirect name.
Proof. intros H. by apply (encodeFileName_direct_aux (length name)). Qed.

Lemma chars_app (a b : string) : chars (a +:+ b) = chars a ++ chars b.
Proof.
  induction a as [|c a IH]; [done|].
  change (c :: chars (a +:+ b) = c :: chars a ++ chars b). by rewrite IH.
Qed.

Lemma pct_safe (a : ascii) : Forall (λ c, isHeaderSafe c = true) (chars (pct (N_of_ascii a))).
Proof.
  destruct a as [[] [] [] [] [] [] [] []];
    repeat (apply Forall_cons_2; [reflexivity|]); apply Forall_nil_2.
Qed.

Lemma pctAll_safe (bs : list N) :
  Forall (λ b, b < 256 ∧ b ≠ 32)%N bs →
  Forall (λ c, isHeaderSafe c = true) (chars (pctAll bs)).
Proof.
  induction 1 as [|b bs [[a ->]%byte_ascii _] _ IH]; [apply Forall_nil_2|].
  cbn [pctAll]. rewrite chars_app. apply Forall_app. split; [apply pct_safe | done].
Qed.

Lemma pctDecode_pct (a : ascii) (s : string) :
  pctDecode (pct (N_of_ascii a) +:+ s) = N_of_ascii a :: pctDecode s.
Proof. destruct a as [[] [] [] [] [] [] [] []]; reflexivity. Qed.

Lemma pctDecode_pctAll (bs : list N) (s : string) :
  Forall (λ b, b < 256 ∧ b ≠ 32)%N bs →
  pctDecode (pctAll bs +:+ s) = bs ++ pctDecode s.
Proof.
  induction 1 as [|b bs [[a ->]%byte_ascii _] _ IH]; [done|].
  cbn [pctAll]. by rewrite append_assoc, pctDecode_pct, IH.
Qed.

(** What the one-pass form gives on a name of [n] code units at
    most. *)
Lemma encodeDirect_facts (n : nat) (name : list N) :
  (length name ≤ n)%nat →
  Forall (λ u, u < 65536)%N name →
  match encodeDirect name with
  | Some out =>
      Forall (λ c, isHeaderSafe c = true) (chars out) ∧
      utf8Bytes name = Some (pctDecode out)
  | None => utf8Bytes name = None
  end.
Proof.
  revert name. induction n as [|n IH]; intros [|u rest] Hlen Hunits;
    try (by split; [apply Forall_nil_2|]); [simpl in Hlen; lia|].
  apply Forall_cons in Hunits as [Hu Hrest]. simpl in Hlen.
  cbn [encodeDirect utf8Bytes].
  destruct (isPlain u) eqn:Hp.
  - destruct (plain_facts _ Hp) as (Hb & Hne & Hpc & -> & ->).
    specialize (IH rest ltac:(lia) Hrest).
    destruct (encodeDirect rest) as [out|]; simpl; [|by rewrite IH].
    destruct IH as [Hsafe Hbytes]. split.
    + apply Forall_cons_2; [|done].
      unfold isHeaderSafe. by rewrite N_ascii_embedding, Hp by lia.
    + rewrite Hbytes. simpl. unfold utf8. destruct (N.ltb_spec u 128); [|lia].
      destruct (Ascii.eqb_spec (ascii_of_N u) "%") as [E|_].
      { apply (f_equal N_of_ascii) in E. rewrite N_ascii_embedding in E by lia. done. }
      by rewrite N_ascii_embedding by lia.
  - destruct (N.eqb_spec u 32) as [->|Hne].
    + specialize (IH rest ltac:(lia) Hrest). simpl.
      destruct (encodeDirect rest) as [out|]; simpl; [|by rewrite IH].
      destruct IH as [Hsafe Hbytes]. split; [by apply Forall_cons_2|].
      by rewrite Hbytes.
    + destruct (isHigh u) eqn:Hhi.
      * destruct rest as [|lo rest']; [done|].
        destruct (isLow lo) eqn:Hlo; [|done].
        apply Forall_cons in Hrest as [_ Hrest']. simpl in Hlen.
        specialize (IH rest' ltac:(lia) Hrest').
        pose proof (codePoint_range _ _ Hhi Hlo).
        assert (Forall (λ b, b < 256 ∧ b ≠ 32)%N (utf8 (codePoint u lo))) as Hbs
          by (apply utf8_bytes; lia).
        destruct (encodeDirect rest') as [out|]; simpl; [|by rewrite IH].
        destruct IH as [Hsafe Hbytes]. split.
        -- rewrite chars_app. apply Forall_app. split; [by apply pctAll_safe | done].
        -- by rewrite Hbytes, pctDecode_pctAll.
      * destruct (isLow u); [done|].
        specialize (IH rest ltac:(lia) Hrest).
        assert (Forall (λ b, b < 256 ∧ b ≠ 32)%N (utf8 u)) as Hbs
          by (apply utf8_bytes; [lia | done]).
        destruct (encodeDirect rest) as [out|]; simpl; [|by rewrite IH].
        destruct IH as [Hsafe Hbytes]. split.
        -- rewrite chars_app. apply Forall_app. split; [by apply pctAll_safe | done].
        -- by rewrite Hbytes, pctDecode_pctAll.
Qed.

(** X19. The name [encodeFileName] puts in the Content-Disposition
    header is made of letters, digits, the marks - _ . ! ~ , the
    percent sign and the space only: no quote, semicolon, backslash,
    control character or character outside ASCII reaches the header,
    whatever the file is called. *)
Theorem X19_encoded_name_is_header_safe (name : list N) (out : string) :
  Forall (λ u, u < 65536)%N name →
  encodeFileName name = Some out →
  Forall (λ c, isHeaderSafe c = true) (chars out).
Proof.
  intros Hunits Henc.
  pose proof (encodeDirect_facts (length name) name ltac:(done) Hunits) as H.
  rewrite <- (encodeFileName_direct _ Hunits), Henc in H.
  by destruct H as [Hsafe _].
Qed.

(** X20. Nothing of a file name is lost: percent-decoding the result
    of [encodeFileName] gives the UTF-8 octets of the name, so two
    different names never get the same header value; and
    [encodeFileName] throws exactly when the name has a surrogate
    without its partner, that is when it has no UTF-8 form. *)
Theorem X20_encoded_name_decodes_to_utf8 (name : list N) :
  Forall (λ u, u < 65536)%N name →
  match encodeFileName name with
  | Some out => utf8Bytes name = Some (pctDecode out)
  | None => utf8Bytes name = None
  end.
Proof.
  intros Hunits.
  pose proof (encodeDirect_facts (length name) name ltac:(done) Hunits) as H.
  rewrite <- (encodeFileName_direct _ Hunits) in H.
  destruct (encodeFileName name); [by destruct H | done].
Qed.

(** X21. A name made of letters, digits, spaces and the marks
    - _ . ! ~ is sent as it is. *)
Theorem X21_plain_name_is_unchanged (name : list N) :
  Forall (λ u, isPlain u = true ∨ u = 32%N) name →
  encodeFileName name = Some (ofUnits name).
Proof.
  intros Hplain.
  rewrite encodeFileName_direct.
  - induction Hplain as [|u rest [Hp| ->] _ IH]; [done| |].
    + cbn [encodeDirect ofUnits]. by rewrite Hp, IH.
    + cbn [encodeDirect ofUnits]. by rewrite IH.
  - eapply Forall_impl; [exact Hplain|]. intros u [Hp| ->]; [|lia].
    destruct (plain_facts _ Hp). lia.
Qed.

(** *** Instances *)

Lemma X19_witness :
  Forall (λ c, isHeaderSafe c = true)
         (chars "report %28final%29%2A%27s copy%3B 100%25.pdf").
Proof.
  apply (X19_encoded_name_is_header_safe MoreSamples.markedName).
  - apply (bool_decide_unpack _). vm_compute. exact I.
  - vm_compute. reflexivity.
Defined.

Lemma X20_witness :
  utf8Bytes MoreSamples.wideName
    = Some (pctDecode "%E6%96%87%E4%BB%B6 %F0%9F%98%80.zip").
Proof.
  apply (X20_encoded_name_decodes_to_utf8 MoreSamples.wideName).
  apply (bool_decide_unpack _). vm_compute. exact I.
Defined.

Lemma X21_witness :
  encodeFileName MoreSamples.plainName = Some "holiday photos 2024_v1.tar.gz".
Proof.
  apply (X21_plain_name_is_unchanged MoreSamples.plainName).
  apply (bool_decide_unpack _). vm_compute. exact I.
Defined.

End FileNameSpec.
